(** * A FastAPI + React starter: the backend contract of the style guide

    The repository ships a frontend shell and, in its backend style guide,
    the Python snippets of a conventional REST service: the todo routes
    [list_todos] and [create_todo], the schema [UserCreate], the table
    [User], the token functions [create_access_token] and
    [get_current_user].  This file embeds those snippets and states the
    properties of the written specification over them.

    Conventions of the embedding.
    - The relational store is a record of tables; a table is the list of
      its rows in rowid order, which is the order a scan without ORDER BY
      visits them under SQLite (the configured [DATABASE_URL]).
    - A handler is a function from the store to a result and a store
      (state and error passing).  A raised exception is [inl]; the
      session is committed only by [db_add_todo] and [db_add_user].
    - [datetime.utcnow()] is the parameter [now], in whole seconds, the
      resolution of the [exp] claim of a token.
    - The JWT library and the password context are outside the
      repository.  The signature, the password hash and Python's [int]
      on a string are section variables ([jws_sign], [pwd_hash],
      [pwd_verify], [int_of_str]); what [jwt.decode] checks of a signed
      token (algorithm, signature, registered claims) is written out.
    - [get_user_by_id], which [get_current_user] calls and no source
      defines, is a section variable: a lookup that answers from the
      subject and the stored state. *)

From Stdlib Require Import ZArith String Ascii Lia.
From stdpp Require Import base option list sorting gmap strings pretty.

Local Open Scope string_scope.
Local Open Scope list_scope.
Local Open Scope Z_scope.

(** ** Domain model *)

(** [class User(SQLModel, table=True)] of the style guide; a stored row
    always carries the primary key the store assigned. *)
Record User : Type := mkUser {
  user_id_of : Z;
  email : string;
  full_name : string;
  hashed_password : string;
  is_active : bool;
  user_created_at : Z
}.

(** [class UserCreate(BaseModel)]. *)
Record UserCreate : Type := mkUserCreate {
  uc_email : string;
  uc_password : string;
  uc_full_name : string
}.

(** Modelled from the spec: [app.models.todo.Todo] is imported by the
    routes but its class is not in the sources.  The fields are those of
    the data model: identifier, owning user reference, title, completion
    flag, creation timestamp. *)
Record Todo : Type := mkTodo {
  todo_id : Z;
  user_id : Z;
  title : string;
  completed : bool;
  created_at : Z
}.

(** Modelled from the spec: [app.schemas.todo.TodoCreate] is imported by
    the routes but not defined in the sources.  It carries the title. *)
Record TodoCreate : Type := mkTodoCreate {
  tc_title : string
}.

#[global] Instance User_eq_dec : EqDecision User.
Proof. solve_decision. Defined.
#[global] Instance Todo_eq_dec : EqDecision Todo.
Proof. solve_decision. Defined.

(** The persisted state: the tables [users] and [todos]. *)
Record DB : Type := mkDB {
  users : list User;
  todos : list Todo
}.

Definition empty_db : DB := mkDB [] [].

(** ** Failures *)

(** [HTTPException] is what the snippets raise.  The next three are the
    typed failures of the specification's taxonomy.  [Unhandled] is an
    exception that no [except] clause of the snippets catches; the
    server answers it with 500. *)
Inductive Failure : Type :=
  | HTTPException (status_code : nat) (detail : string)
  | ValidationError (field : string)
  | DuplicateEmail
  | InvalidCredentials
  | Unhandled (exception : string).

#[global] Instance Failure_eq_dec : EqDecision Failure.
Proof. solve_decision. Defined.

(** The failure [get_current_user] raises for a bad token. *)
Definition InvalidToken : Failure := HTTPException 401 "Invalid token".

(** ** Handlers: state and error passing *)

Definition Handler (A : Type) : Type := DB → (Failure + A) * DB.

#[global] Instance Handler_ret : MRet Handler :=
  λ A (a : A) db, (inr a, db).

#[global] Instance Handler_bind : MBind Handler :=
  λ A B (k : A → Handler B) (m : Handler A) db,
    match m db with
    | (inr a, db') => k a db'
    | (inl f, db') => (inl f, db')
    end.

Definition raise {A} (f : Failure) : Handler A := λ db, (inl f, db).

Definition read_db : Handler DB := λ db, (inr db, db).

Definition write_db (db' : DB) : Handler unit := λ _, (inr tt, db').

(** Result and final store of a handler run. *)
Definition result_of {A} (r : (Failure + A) * DB) : Failure + A := r.1.
Definition store_of {A} (r : (Failure + A) * DB) : DB := r.2.

(** ** The store's primitives *)

(** The rowid SQLite gives to an inserted row: one more than the largest
    rowid in the table, 1 in an empty table. *)
Definition next_id (ids : list Z) : Z := 1 + foldr Z.max 0 ids.

(** SQL [OFFSET n] and [LIMIT n] as SQLite evaluates them, for [n]
    within its 64-bit integers (the database driver refuses larger
    ones).  A negative offset is no offset. *)
Definition sql_offset {A} (n : Z) (rows : list A) : list A :=
  drop (Z.to_nat n) rows.

(** A negative limit is no upper bound. *)
Definition sql_limit {A} (n : Z) (rows : list A) : list A :=
  if n <? 0 then rows else take (Z.to_nat n) rows.

(** ** Todo routes *)

(** The query of [list_todos]:
    [db.query(Todo).filter(Todo.user_id == user.id).offset(skip).limit(limit).all()]. *)
Definition query_todos (uid skip limit : Z) (table : list Todo) : list Todo :=
  sql_limit limit (sql_offset skip (filter (λ t, user_id t = uid) table)).

(** [GET /todos/], with the caller already resolved by the auth
    dependency. *)
Definition list_todos (user : User) (skip limit : Z) : Handler (list Todo) :=
  db ← read_db;
  mret (query_todos (user_id_of user) skip limit (todos db)).

(** The defaults of the query parameters: [skip: int = 0],
    [limit: int = 100]. *)
Definition list_todos_params (user : User) (skip limit : option Z)
  : Handler (list Todo) :=
  list_todos user (default 0 skip) (default 100 limit).

(** Modelled from the spec: the validation rule of the missing schema
    [TodoCreate]; the title of a Todo is non-empty, so an empty title is
    a [ValidationError], raised before the route body runs. *)
Definition parse_TodoCreate (raw_title : string) : Failure + TodoCreate :=
  if decide (raw_title = "") then inl (ValidationError "title")
  else inr (mkTodoCreate raw_title).

(** [db.add(todo); db.commit(); db.refresh(todo)]: the row is appended
    with a fresh primary key and read back. *)
Definition db_add_todo (uid : Z) (ttl : string) (now : Z) : Handler Todo :=
  db ← read_db;
  let todo := mkTodo (next_id (todo_id <$> todos db)) uid ttl false now in
  _ ← write_db (mkDB (users db) (todos db ++ [todo]));
  mret todo.

(** [POST /todos/], body of the route:
    a [Todo] built from the fields of [todo_in.model_dump()] and
    [user_id=user.id], then added, committed and refreshed; the fields
    the schema does not give take their defaults. *)
Definition create_todo (todo_in : TodoCreate) (user : User) (now : Z)
  : Handler Todo :=
  db_add_todo (user_id_of user) (tc_title todo_in) now.

(** The operation [create(user_id, title)] as a client reaches it: the
    payload is validated, then the route body runs. *)
Definition create (user : User) (raw_title : string) (now : Z)
  : Handler Todo :=
  match parse_TodoCreate raw_title with
  | inl f => raise f
  | inr todo_in => create_todo todo_in user now
  end.

(** ** Tokens *)

(** The values a claim of a token can hold. *)
Inductive JVal : Type :=
  | JNull
  | JBool (b : bool)
  | JInt (z : Z)
  | JStr (s : string).

#[global] Instance JVal_eq_dec : EqDecision JVal.
Proof. solve_decision. Defined.

(** A bearer token as the server receives it: either a string that is
    not a signed token at all, or the three parts of a signed token
    (the algorithm of its header, its claims, its signature). *)
Inductive Token : Type :=
  | Garbage (raw : string)
  | JWS (alg : string) (claims : gmap string JVal) (signature : string).

(** The claims of a token, none for a string that carries none. *)
Definition token_claims (t : Token) : gmap string JVal :=
  match t with
  | Garbage _ => ∅
  | JWS _ c _ => c
  end.

(** How [jwt.decode] can fail: with a [JWTError] (its subclasses
    [JWTClaimsError] and [ExpiredSignatureError] included), which
    [get_current_user] catches, or with a [TypeError], which it does
    not. *)
Inductive DecodeError : Type :=
  | JWTError
  | TypeError.

#[global] Instance DecodeError_eq_dec : EqDecision DecodeError.
Proof. solve_decision. Defined.

(** What Python's [int(v)] gives on a claim value. *)
Inductive IntResult : Type :=
  | IntOk (z : Z)
  | IntValueError
  | IntTypeError.

(** The first failure of a sequence of checks. *)
Definition first_error (checks : list (option DecodeError)) : option DecodeError :=
  foldr (λ check rest, match check with Some e => Some e | None => rest end)
        None checks.

(** The data a login hands to [create_access_token]: of the registered
    claims it holds at most a subject, and that one is a string. *)
Definition plain_claims (data : gmap string JVal) : Prop :=
  data !! "iat" = None ∧ data !! "nbf" = None ∧ data !! "aud" = None
  ∧ data !! "jti" = None ∧ data !! "at_hash" = None
  ∧ (data !! "sub" = None ∨ ∃ s, data !! "sub" = Some (JStr s)).

(** [timedelta(minutes=15)], in seconds. *)
Definition default_expires_delta : Z := 15 * 60.

(** Modelled from the spec: emails are compared case-insensitively; the
    comparison is equality after ASCII lower-casing. *)
Definition lower_ascii (c : ascii) : ascii :=
  let n := nat_of_ascii c in
  if ((65 <=? n) && (n <=? 90))%nat then ascii_of_nat (n + 32) else c.

Fixpoint lower (s : string) : string :=
  match s with
  | EmptyString => EmptyString
  | String c s' => String (lower_ascii c) (lower s')
  end.

(** A response of the API layer: a status and the fields of its body. *)
Record Response : Type := mkResponse {
  status : nat;
  body : list (string * JVal)
}.

Section Auth.

(** The process-wide configuration of the auth service. *)
Variable SECRET_KEY : string.
Variable ALGORITHM : string.

(** The signature the JWT library computes over a header algorithm and
    a claim set under a key. *)
Variable jws_sign : string → string → gmap string JVal → string.

(** The password context: [pwd_context.hash] under a salt and
    [pwd_context.verify]. *)
Variable pwd_hash : string → string → string.
Variable pwd_verify : string → string → bool.

(** The check behind [EmailStr]. *)
Variable valid_email : string → bool.

(** Python's [int] on a string; [None] stands for its [ValueError]. *)
Variable int_of_str : string → option Z.

(** [get_user_by_id], which [get_current_user] calls and no source
    defines: a lookup that answers from the subject of the token and
    the stored state. *)
Variable get_user_by_id : JVal → DB → option User.

(** [jwt.encode(claims, key, algorithm=...)]. *)
Definition jwt_encode (claims : gmap string JVal) (key alg : string) : Token :=
  JWS alg claims (jws_sign key alg claims).

(** [int(v)] on the value of a claim: a number is itself, a boolean is
    0 or 1, a string is parsed, and [None] is a [TypeError]. *)
Definition py_int (v : JVal) : IntResult :=
  match v with
  | JInt z => IntOk z
  | JBool b => IntOk (if b then 1 else 0)
  | JStr s => match int_of_str s with
              | Some z => IntOk z
              | None => IntValueError
              end
  | JNull => IntTypeError
  end.

(** The check of a time claim ([iat], [nbf], [exp]) by the JWT library:
    an absent claim passes; [int(claim)] with [except ValueError] turns
    a string that is no number into a [JWTClaimsError] and lets the
    [TypeError] of a null claim through; the number is then compared
    with the current time. *)
Definition validate_time (claim : option JVal) (refused : Z → bool)
    : option DecodeError :=
  match claim with
  | None => None
  | Some v =>
      match py_int v with
      | IntOk z => if refused z then Some JWTError else None
      | IntValueError => Some JWTError
      | IntTypeError => Some TypeError
      end
  end.

(** The check of a claim that must be a string ([sub], [jti]). *)
Definition validate_str (claim : option JVal) : option DecodeError :=
  match claim with
  | None | Some (JStr _) => None
  | Some _ => Some JWTError
  end.

(** The check of a claim the call gives nothing to compare with: [aud]
    when no audience is passed, [at_hash] when no access token is
    passed.  A token that carries the claim is refused. *)
Definition validate_absent (claim : option JVal) : option DecodeError :=
  match claim with
  | None => None
  | Some _ => Some JWTError
  end.

(** The validation of the registered claims, in the order of the
    library and with its default options (no leeway, no audience, no
    issuer, no subject, no access token): [iat], [nbf], [exp], [aud],
    [iss] (not checked without an issuer), [sub], [jti], [at_hash]. *)
Definition validate_claims (claims : gmap string JVal) (now : Z)
    : option DecodeError :=
  first_error
    [ validate_time (claims !! "iat") (λ _, false);
      validate_time (claims !! "nbf") (λ nbf, now <? nbf);
      validate_time (claims !! "exp") (λ exp, exp <? now);
      validate_absent (claims !! "aud");
      validate_str (claims !! "sub");
      validate_str (claims !! "jti");
      validate_absent (claims !! "at_hash") ].

(** [jwt.decode(token, key, algorithms=[...])] at time [now].  A string
    that is not a signed token, an algorithm that is not allowed and a
    signature that does not verify are a [JWTError]; the claims of a
    verified token are validated and returned. *)
Definition jwt_decode (token : Token) (key : string) (algorithms : list string)
    (now : Z) : DecodeError + gmap string JVal :=
  match token with
  | Garbage _ => inl JWTError
  | JWS alg claims sig =>
      if bool_decide (alg ∈ algorithms)
         && bool_decide (sig = jws_sign key alg claims)
      then match validate_claims claims now with
           | Some e => inl e
           | None => inr claims
           end
      else inl JWTError
  end.

(** [create_access_token(data, expires_delta)]: the claims are copied,
    [exp] is set to the current time plus the lifetime, and the token
    is signed. *)
Definition create_access_token (data : gmap string JVal) (expires_delta : Z)
    (now : Z) : Token :=
  let to_encode := data in
  let expire := now + expires_delta in
  let to_encode := <["exp" := JInt expire]> to_encode in
  jwt_encode to_encode SECRET_KEY ALGORITHM.

(** The token check of [get_current_user], its [try] block: the token
    is decoded, a [JWTError] and a payload without subject are answered
    with 401 "Invalid token", and the subject is returned.  This is the
    operation [verify(token)] of the specification. *)
Definition verify_token (token : Token) (now : Z) : Handler JVal :=
  match jwt_decode token SECRET_KEY [ALGORITHM] now with
  | inl JWTError => raise (HTTPException 401 "Invalid token")
  | inl TypeError => raise (Unhandled "TypeError")
  | inr payload =>
      match payload !! "sub" with
      | None | Some JNull => raise (HTTPException 401 "Invalid token")
      | Some user_id => mret user_id
      end
  end.

(** [get_current_user(token)], the auth dependency of every route: the
    token check, then [get_user_by_id] and its guard. *)
Definition get_current_user (token : Token) (now : Z) : Handler User :=
  user_id ← verify_token token now;
  db ← read_db;
  match get_user_by_id user_id db with
  | None => raise (HTTPException 401 "User not found")
  | Some user => mret user
  end.

(** The constraints of [UserCreate]: [EmailStr], [min_length=8] for the
    password, [min_length=1] for the full name. *)
Definition parse_UserCreate (raw_email raw_password raw_full_name : string)
    : Failure + UserCreate :=
  if negb (valid_email raw_email) then inl (ValidationError "email")
  else if (String.length raw_password <? 8)%nat then inl (ValidationError "password")
  else if (String.length raw_full_name <? 1)%nat then inl (ValidationError "full_name")
  else inr (mkUserCreate raw_email raw_password raw_full_name).

(** Modelled from the spec: the lookup behind "email already present"
    and "email unknown"; the user whose email equals [e] under
    case-insensitive comparison, if the table has one. *)
Definition get_user_by_email (e : string) : Handler (option User) :=
  db ← read_db;
  mret (head (filter (λ u, lower (email u) = lower e) (users db))).

(** Modelled from the spec: the insertion behind [register], as the
    todo route does it ([db.add], [db.commit], [db.refresh]); the row
    of a new user is appended with a fresh primary key, active, with
    the current time as creation timestamp. *)
Definition db_add_user (e name hashed : string) (now : Z) : Handler User :=
  db ← read_db;
  let user := mkUser (next_id (user_id_of <$> users db)) e name hashed true now in
  _ ← write_db (mkDB (users db ++ [user]) (todos db));
  mret user.

(** Modelled from the spec: [register(email, password, full_name)] is
    not in the sources.  It fails with [DuplicateEmail] if the email
    is already present (case-insensitive comparison) and otherwise
    stores the user with a salted hash of the password, never the
    plaintext. *)
Definition register (user_in : UserCreate) (salt : string) (now : Z)
    : Handler User :=
  existing ← get_user_by_email (uc_email user_in);
  match existing with
  | Some _ => raise DuplicateEmail
  | None =>
      db_add_user (uc_email user_in) (uc_full_name user_in)
                  (pwd_hash salt (uc_password user_in)) now
  end.

(** Modelled from the spec: [authenticate(email, password)] is not in
    the sources.  It fails with [InvalidCredentials] if the email is
    unknown or the hash does not match; on success it mints a signed
    token with subject = user id (as the decimal string the JWT library
    asks a subject to be) and the fixed expiry. *)
Definition authenticate (e password : string) (now : Z) : Handler Token :=
  found ← get_user_by_email e;
  match found with
  | None => raise InvalidCredentials
  | Some u =>
      if pwd_verify password (hashed_password u)
      then mret (create_access_token
                   {[ "sub" := JStr (pretty (user_id_of u)) ]}
                   default_expires_delta now)
      else raise InvalidCredentials
  end.

(** Modelled from the spec: the API layer's translation of a typed
    failure into a status (the table of external interfaces). *)
Definition status_of (f : Failure) : nat :=
  match f with
  | HTTPException code _ => code
  | ValidationError _ => 400
  | DuplicateEmail => 409
  | InvalidCredentials => 401
  | Unhandled _ => 500
  end.

(** The fields of a [User] row. *)
Definition User_model_dump (u : User) : list (string * JVal) :=
  [ ("id", JInt (user_id_of u));
    ("email", JStr (email u));
    ("full_name", JStr (full_name u));
    ("hashed_password", JStr (hashed_password u));
    ("is_active", JBool (is_active u));
    ("created_at", JInt (user_created_at u)) ].

(** Modelled from the spec: the response schema of a user is not in
    the sources; it is the User without the hash field. *)
Definition UserResponse_fields : list string :=
  [ "id"; "email"; "full_name"; "is_active"; "created_at" ].

(** A [response_model] keeps the fields of its schema. *)
Definition response_model (fields : list string) (obj : list (string * JVal))
    : list (string * JVal) :=
  filter (λ kv, kv.1 ∈ fields) obj.

(** Modelled from the spec: a failure is answered with its status and
    a structured body with the one field [detail]. *)
Definition error_response (f : Failure) : Response :=
  mkResponse (status_of f) [ ("detail", JStr match f with
                                             | HTTPException _ d => d
                                             | ValidationError fld => fld
                                             | DuplicateEmail => "DuplicateEmail"
                                             | InvalidCredentials => "InvalidCredentials"
                                             | Unhandled _ => "Internal Server Error"
                                             end) ].

(** Modelled from the spec: [POST /auth/register] is not in the
    sources.  The payload is validated, [register] runs, and the
    answer is 201 with the User shaped by the response schema, or the
    translated failure. *)
Definition register_route (raw_email raw_password raw_full_name salt : string)
    (now : Z) (db : DB) : Response * DB :=
  match parse_UserCreate raw_email raw_password raw_full_name with
  | inl f => (error_response f, db)
  | inr user_in =>
      match register user_in salt now db with
      | (inl f, db') => (error_response f, db')
      | (inr u, db') =>
          (mkResponse 201 (response_model UserResponse_fields (User_model_dump u)), db')
      end
  end.

(** ** Requests and the states the service reaches *)

Inductive Request : Type :=
  | ReqRegister (raw_email raw_password raw_full_name salt : string)
  | ReqLogin (e password : string)
  | ReqListTodos (token : Token) (skip limit : option Z)
  | ReqCreateTodo (token : Token) (raw_title : string).

(** The store after a request served at time [now]. *)
Definition serve (now : Z) (req : Request) (db : DB) : DB :=
  match req with
  | ReqRegister e p n salt => (register_route e p n salt now db).2
  | ReqLogin e p => store_of (authenticate e p now db)
  | ReqListTodos tok skip limit =>
      store_of ((user ← get_current_user tok now;
                 list_todos_params user skip limit) db)
  | ReqCreateTodo tok raw_title =>
      store_of ((user ← get_current_user tok now;
                 create user raw_title now) db)
  end.

(** The store after a sequence of timed requests. *)
Definition run (reqs : list (Z * Request)) (db : DB) : DB :=
  foldl (λ d r, serve r.1 r.2 d) db reqs.

End Auth.

(** ** Fixtures: a concrete configuration and concrete stores *)

Module Fixture.

Definition secret : string := "change-me".
Definition algorithm : string := "HS256".

(** Stand-ins for the library functions, enough to run the service. *)
Definition sign (key alg : string) (claims : gmap string JVal) : string :=
  key +:+ "." +:+ alg.
Definition hash (salt password : string) : string :=
  password +:+ "$" +:+ salt.
Definition verify (password hashed : string) : bool :=
  String.prefix (password +:+ "$") hashed.
Definition is_email (e : string) : bool :=
  match String.index 0 "@" e with Some _ => true | None => false end.
Fixpoint digits (s : string) (acc : Z) : option Z :=
  match s with
  | EmptyString => Some acc
  | String c s' =>
      let n := nat_of_ascii c in
      if ((48 <=? n) && (n <=? 57))%nat
      then digits s' (10 * acc + Z.of_nat (n - 48))
      else None
  end.
Definition int_of_str (s : string) : option Z :=
  if decide (s = "") then None else digits s 0.

Definition alice : User :=
  mkUser 1 "a@x.com" "Alice" (hash "s1" "password123") true 1000.
Definition bob : User :=
  mkUser 2 "b@x.com" "Bob" (hash "s2" "hunter2hunter2") true 1001.

Definition db_users : DB := mkDB [alice; bob] [].

(** Two todos of Alice, created in this order while the clock of the
    server was set back in between. *)
Definition db_clock_set_back : DB :=
  store_of (create alice "second thoughts" 2005
              (store_of (create alice "first" 2010 db_users))).

(** The store after Alice created [n] todos. *)
Definition db_many (n : nat) : DB :=
  Nat.iter n (λ db, store_of (create alice "t" 3000 db)) db_users.

(** A stand-in for [get_user_by_id]: the row of the [users] table
    whose id the subject spells. *)
Definition lookup (uid : JVal) (db : DB) : option User :=
  match uid with
  | JStr s => head (filter (λ u, pretty (user_id_of u) = s) (users db))
  | _ => None
  end.

(** Alice's token, minted at time 2000. *)
Definition alice_token : Token :=
  create_access_token secret algorithm sign {[ "sub" := JStr "1" ]}
                      default_expires_delta 2000.

End Fixture.

(** Creation times ascending. *)
Definition created_le (t1 t2 : Todo) : Prop := created_at t1 ≤ created_at t2.

#[global] Instance created_le_dec t1 t2 : Decision (created_le t1 t2).
Proof. unfold created_le. apply _. Defined.

(** ** Routes with their auth dependency *)

(** The Todos a listing call returns, none if the call fails. *)
Definition listing (user : User) (skip limit : Z) (db : DB) : list Todo :=
  match result_of (list_todos user skip limit db) with
  | inr page => page
  | inl _ => []
  end.

(** The Todos the call without query parameters returns. *)
Definition default_listing (user : User) (db : DB) : list Todo :=
  match result_of (list_todos_params user None None db) with
  | inr page => page
  | inl _ => []
  end.

(** The state of the [todos] table that the create route keeps:
    primary keys ascend along the table. *)
Definition todos_consistent (db : DB) : Prop :=
  StronglySorted Z.lt (todo_id <$> todos db).

(** [oauth2_scheme = OAuth2PasswordBearer(tokenUrl="auth/token")], the
    dependency of [get_current_user].  The [Authorization] header of
    the request is absent (or empty), or it is split at its first space
    into a scheme and the credentials, the token.  A missing header and
    a scheme other than bearer, in any case of letters, are answered
    with 401 "Not authenticated"; otherwise the token is returned. *)
Definition oauth2_scheme (authorization : option (string * Token))
    : Handler Token :=
  match authorization with
  | None => raise (HTTPException 401 "Not authenticated")
  | Some (scheme, param) =>
      if decide (lower scheme = "bearer") then mret param
      else raise (HTTPException 401 "Not authenticated")
  end.

Section Endpoints.

Variable SECRET_KEY : string.
Variable ALGORITHM : string.
Variable jws_sign : string → string → gmap string JVal → string.
Variable int_of_str : string → option Z.
Variable get_user_by_id : JVal → DB → option User.

(** [GET /todos/] as a client reaches it: the token is taken from the
    [Authorization] header, [user = Depends(get_current_user)] is
    resolved from it, then the route body runs. *)
Definition list_todos_endpoint (authorization : option (string * Token))
    (skip limit : option Z) (now : Z) : Handler (list Todo) :=
  token ← oauth2_scheme authorization;
  user ← get_current_user SECRET_KEY ALGORITHM jws_sign int_of_str
           get_user_by_id token now;
  list_todos_params user skip limit.

(** [POST /todos/] as a client reaches it with a valid payload: the
    token is taken from the [Authorization] header, the caller is
    resolved from it, then the route body runs. *)
Definition create_todo_endpoint (authorization : option (string * Token))
    (todo_in : TodoCreate) (now : Z) : Handler Todo :=
  token ← oauth2_scheme authorization;
  user ← get_current_user SECRET_KEY ALGORITHM jws_sign int_of_str
           get_user_by_id token now;
  create_todo todo_in user now.

End Endpoints.

(** ** The API client of the frontend guide *)

Module Frontend.

(** The request configuration the interceptor receives: the fields of
    an Axios request the snippets use. *)
Record RequestConfig : Type := mkRequestConfig {
  baseURL : string;
  url : string;
  method : string;
  headers : gmap string string;
  data : option string
}.

(** The request interceptor of the API client:
    [const token = localStorage.getItem("token");
     if (token) config.headers.Authorization = `Bearer ${token}`;
     return config;]
    [getItem] gives null for a missing key, and null and the empty
    string are falsy. *)
Definition request_interceptor (localStorage : gmap string string)
    (config : RequestConfig) : RequestConfig :=
  match localStorage !! "token" with
  | None => config
  | Some token =>
      if decide (token = "") then config
      else mkRequestConfig (baseURL config) (url config) (method config)
             (<["Authorization" := "Bearer " +:+ token]> (headers config))
             (data config)
  end.

(** The path [todosApi.getTodos] requests: [`/users/${userId}/todos`]. *)
Definition getTodos_url (userId : string) : string :=
  "/users/" +:+ userId +:+ "/todos".

(** A request as the client hands it to the interceptor. *)
Definition sample_config : RequestConfig :=
  mkRequestConfig "/api" (getTodos_url "7") "get"
                  {[ "Content-Type" := "application/json" ]} None.

End Frontend.

(** * Properties *)

(** ** The store's primitives *)

Lemma next_id_above (ids : list Z) (i : Z) : i ∈ ids → i < next_id ids.
Proof.
  unfold next_id. induction 1 as [i l | i j l _ IH]; simpl; lia.
Qed.

Lemma next_id_fresh (ids : list Z) : next_id ids ∉ ids.
Proof. intros H. apply next_id_above in H. lia. Qed.

Lemma sql_offset_sublist {A} (n : Z) (rows : list A) :
  sql_offset n rows `sublist_of` rows.
Proof. apply sublist_drop. Qed.

Lemma sql_limit_sublist {A} (n : Z) (rows : list A) :
  sql_limit n rows `sublist_of` rows.
Proof. unfold sql_limit. destruct (n <? 0); [done | apply sublist_take]. Qed.

Lemma sql_limit_length {A} (n : Z) (rows : list A) :
  0 ≤ n → Z.of_nat (length (sql_limit n rows)) ≤ n.
Proof.
  intros Hn. unfold sql_limit.
  destruct (Z.ltb_spec n 0) as [?|_]; [lia|].
  rewrite length_take. lia.
Qed.

(** A limited, offset selection is a contiguous window of the rows,
    starting after the skipped ones. *)
Lemma sql_window {A} (skip limit : Z) (rows : list A) :
  ∃ after,
    rows = take (Z.to_nat skip) rows ++ sql_limit limit (sql_offset skip rows) ++ after.
Proof.
  unfold sql_limit, sql_offset.
  destruct (limit <? 0).
  - exists []. by rewrite app_nil_r, take_drop.
  - exists (drop (Z.to_nat limit) (drop (Z.to_nat skip) rows)).
    by rewrite !take_drop.
Qed.

Lemma StronglySorted_sublist {A} (R : relation A) (l1 l2 : list A) :
  l1 `sublist_of` l2 → StronglySorted R l2 → StronglySorted R l1.
Proof.
  intros Hsub. induction Hsub as [|x l1 l2 Hsub IH|x l1 l2 Hsub IH].
  - done.
  - rewrite !StronglySorted_cons. intros [Hall Hs]. split; [|auto].
    rewrite Forall_forall in Hall |- *.
    eauto using elem_of_sublist.
  - rewrite StronglySorted_cons. intros [_ Hs]. auto.
Qed.

(** ** The model at small inputs *)

Example lower_mixed_case : lower "Ab@X.Com" = "ab@x.com".
Proof. reflexivity. Qed.

Example list_first_page :
  result_of (list_todos Fixture.alice 0 1 Fixture.db_clock_set_back)
  = inr [mkTodo 1 1 "first" false 2010].
Proof. reflexivity. Qed.

Example list_second_page :
  result_of (list_todos Fixture.alice 1 1 Fixture.db_clock_set_back)
  = inr [mkTodo 2 1 "second thoughts" false 2005].
Proof. reflexivity. Qed.

Example list_other_user :
  result_of (list_todos Fixture.bob 0 100 Fixture.db_clock_set_back) = inr [].
Proof. reflexivity. Qed.

Example subject_as_string : pretty (42 : Z) = "42".
Proof. by vm_compute. Qed.

Example token_at_expiry :
  result_of (get_current_user Fixture.secret Fixture.algorithm Fixture.sign
               Fixture.int_of_str Fixture.lookup
               Fixture.alice_token 2900 Fixture.db_users) = inr Fixture.alice.
Proof. by vm_compute. Qed.

Example token_after_expiry :
  result_of (get_current_user Fixture.secret Fixture.algorithm Fixture.sign
               Fixture.int_of_str Fixture.lookup
               Fixture.alice_token 2901 Fixture.db_users) = inl InvalidToken.
Proof. by vm_compute. Qed.

Example token_forged :
  result_of (get_current_user Fixture.secret Fixture.algorithm Fixture.sign
               Fixture.int_of_str Fixture.lookup
               (JWS "HS256" {[ "sub" := JStr "1" ]} "guess") 2100 Fixture.db_users)
  = inl InvalidToken.
Proof. by vm_compute. Qed.

Example token_with_number_as_subject :
  result_of (get_current_user Fixture.secret Fixture.algorithm Fixture.sign
               Fixture.int_of_str Fixture.lookup
               (jwt_encode Fixture.sign {[ "sub" := JInt 1 ]}
                  Fixture.secret Fixture.algorithm)
               2100 Fixture.db_users)
  = inl InvalidToken.
Proof. by vm_compute. Qed.

Example token_with_audience :
  result_of (get_current_user Fixture.secret Fixture.algorithm Fixture.sign
               Fixture.int_of_str Fixture.lookup
               (jwt_encode Fixture.sign {[ "sub" := JStr "1"; "aud" := JStr "app" ]}
                  Fixture.secret Fixture.algorithm)
               2100 Fixture.db_users)
  = inl InvalidToken.
Proof. by vm_compute. Qed.

Example token_with_null_expiry :
  result_of (get_current_user Fixture.secret Fixture.algorithm Fixture.sign
               Fixture.int_of_str Fixture.lookup
               (jwt_encode Fixture.sign {[ "sub" := JStr "1"; "exp" := JNull ]}
                  Fixture.secret Fixture.algorithm)
               2100 Fixture.db_users)
  = inl (Unhandled "TypeError").
Proof. by vm_compute. Qed.

(** ** The query of the list route *)

Lemma query_todos_sublist (uid skip limit : Z) (table : list Todo) :
  query_todos uid skip limit table `sublist_of` table.
Proof.
  unfold query_todos.
  etrans; [apply sql_limit_sublist|].
  etrans; [apply sql_offset_sublist|].
  apply sublist_filter.
Qed.

Lemma query_todos_elem (uid skip limit : Z) (table : list Todo) (t : Todo) :
  t ∈ query_todos uid skip limit table → user_id t = uid ∧ t ∈ table.
Proof.
  unfold query_todos. intros H.
  eapply elem_of_sublist in H; [|apply sql_limit_sublist].
  eapply elem_of_sublist in H; [|apply sql_offset_sublist].
  by apply list_elem_of_filter in H.
Qed.

Lemma list_todos_run (u : User) (skip limit : Z) (db : DB) :
  list_todos u skip limit db
  = (inr (query_todos (user_id_of u) skip limit (todos db)), db).
Proof. reflexivity. Qed.

(** ** Creating a todo *)

Lemma create_todo_run (todo_in : TodoCreate) (u : User) (now : Z) (db : DB) :
  create_todo todo_in u now db
  = let t := mkTodo (next_id (todo_id <$> todos db)) (user_id_of u)
                    (tc_title todo_in) false now in
    (inr t, mkDB (users db) (todos db ++ [t])).
Proof. reflexivity. Qed.

Lemma create_owner (u : User) (raw_title : string) (now : Z) (db : DB) (t : Todo) :
  result_of (create u raw_title now db) = inr t → user_id t = user_id_of u.
Proof.
  unfold create, parse_TodoCreate. case_decide; [discriminate|].
  rewrite create_todo_run. simpl. by intros [= <-].
Qed.

Lemma create_keeps_creation_order (u : User) (raw_title : string) (now : Z) (db : DB) :
  StronglySorted created_le (todos db) →
  Forall (λ t, created_at t ≤ now) (todos db) →
  StronglySorted created_le (todos (store_of (create u raw_title now db))).
Proof.
  intros Hs Hnow. unfold create, parse_TodoCreate. case_decide; [done|].
  rewrite create_todo_run. simpl.
  apply StronglySorted_app_2; [|done|repeat constructor].
  intros t1 t2 Ht1 ->%list_elem_of_singleton.
  rewrite Forall_forall in Hnow. by apply Hnow.
Qed.

Lemma filter_all {A} (P : A → Prop) `{!∀ x, Decision (P x)} (l : list A) :
  Forall P l → filter P l = l.
Proof.
  induction 1 as [|x l HP _ IH]; [done|].
  rewrite filter_cons_True by done. by rewrite IH.
Qed.

Lemma db_many_todos (n : nat) :
  length (todos (Fixture.db_many n)) = n
  ∧ Forall (λ t, user_id t = 1) (todos (Fixture.db_many n)).
Proof.
  induction n as [|n [IHlen IHown]]; [by split|].
  change (Fixture.db_many (S n))
    with (store_of (create Fixture.alice "t" 3000 (Fixture.db_many n))).
  unfold create, parse_TodoCreate. case_decide; [discriminate|].
  rewrite create_todo_run. simpl.
  split.
  - rewrite length_app, IHlen. simpl. lia.
  - apply Forall_app_2; [done|]. by repeat constructor.
Qed.

(** ** Listing: ownership *)

(** C1. For every user [u] and every other user [v], every Todo
    returned by [list_todos] for [u] is owned by [u]; no Todo owned by
    [v], and none that a [create] of [v] returned in any state, is in
    it; the result is exactly a page of the Todos whose owner is [u]:
    of the rows of the table that [u] owns, in table order, the first
    [skip] are left out and the next [limit] are returned, all the rest
    when the limit is negative; so every Todo of [u] is in the listing
    without offset and limit. *)
Theorem list_todos_only_owner (db : DB) (u v : User) (skip limit : Z) :
  user_id_of v ≠ user_id_of u →
  ∃ page,
    list_todos u skip limit db = (inr page, db)
    ∧ (∀ t, t ∈ page → user_id t = user_id_of u ∧ t ∈ todos db)
    ∧ (∀ t, user_id t = user_id_of v → t ∉ page)
    ∧ (∀ raw_title now db0 t,
         result_of (create v raw_title now db0) = inr t → t ∉ page)
    ∧ (∃ before after,
        filter (λ t, user_id t = user_id_of u) (todos db) = before ++ page ++ after
        ∧ before = take (Z.to_nat skip)
                        (filter (λ t, user_id t = user_id_of u) (todos db)))
    ∧ page = (if limit <? 0
              then drop (Z.to_nat skip)
                     (filter (λ t, user_id t = user_id_of u) (todos db))
              else take (Z.to_nat limit)
                     (drop (Z.to_nat skip)
                        (filter (λ t, user_id t = user_id_of u) (todos db))))
    ∧ ∃ everything,
        list_todos u 0 (-1) db = (inr everything, db)
        ∧ ∀ t, t ∈ todos db → user_id t = user_id_of u → t ∈ everything.
Proof.
  intros Hne. exists (query_todos (user_id_of u) skip limit (todos db)).
  assert (Hother : ∀ t, user_id t = user_id_of v →
                        t ∉ query_todos (user_id_of u) skip limit (todos db)).
  { intros t Hv [Hu _]%query_todos_elem. congruence. }
  split_and!.
  - apply list_todos_run.
  - apply query_todos_elem.
  - exact Hother.
  - intros raw_title now db0 t Hc. apply Hother. by eapply create_owner.
  - unfold query_todos.
    destruct (sql_window skip limit
                (filter (λ t, user_id t = user_id_of u) (todos db))) as [after Hw].
    eauto.
  - reflexivity.
  - exists (filter (λ t, user_id t = user_id_of u) (todos db)). split.
    + rewrite list_todos_run. unfold query_todos, sql_limit, sql_offset.
      change (-1 <? 0) with true. cbn iota. change (Z.to_nat 0) with 0%nat.
      by rewrite drop_0.
    + intros t Hin Hown. by apply list_elem_of_filter.
Qed.

Lemma list_todos_only_owner_witness :
  user_id_of Fixture.bob ≠ user_id_of Fixture.alice
  ∧ ∃ page,
      result_of (list_todos Fixture.alice 0 100 Fixture.db_clock_set_back) = inr page
      ∧ (∀ t, t ∈ page → user_id t = 1)
      ∧ page = todos Fixture.db_clock_set_back.
Proof.
  assert (Hne : user_id_of Fixture.bob ≠ user_id_of Fixture.alice) by (simpl; lia).
  split; [exact Hne|].
  destruct (list_todos_only_owner Fixture.db_clock_set_back
              Fixture.alice Fixture.bob 0 100 Hne)
    as (page & Hrun & Hown & _ & _ & _ & Hpage & _).
  exists page. split_and!; [by rewrite Hrun | | exact Hpage].
  intros t Ht. by destruct (Hown t Ht).
Defined.

(** ** Listing: order *)

(** C2, as the claim states it, fails: the query has no ORDER BY, so the
    rows come in table order.  On the store of two todos of Alice
    inserted while the clock was set back, the listing is not sorted by
    creation time, and [list(offset=0, limit=1)] returns the first
    inserted todo, which is not the earliest-created one. *)
Lemma list_todos_not_sorted_by_creation :
  ¬ (∀ (db : DB) (u : User) (skip limit : Z) (page : list Todo),
       result_of (list_todos u skip limit db) = inr page →
       StronglySorted created_le page)
  ∧ ¬ (∀ (db : DB) (u : User) (t1 t2 : Todo),
         filter (λ t, user_id t = user_id_of u) (todos db) = [t1; t2] →
         ∃ t, result_of (list_todos u 0 1 db) = inr [t]
              ∧ created_le t t1 ∧ created_le t t2).
Proof.
  split; intros H.
  - specialize (H Fixture.db_clock_set_back Fixture.alice 0 100 _ eq_refl).
    vm_compute in H.
    apply StronglySorted_cons in H as [Hall _].
    apply Forall_cons in Hall as [Hle _].
    vm_compute in Hle. by apply Hle.
  - destruct (H Fixture.db_clock_set_back Fixture.alice _ _ eq_refl)
      as (t & Hrun & _ & Hle).
    vm_compute in Hrun. injection Hrun as <-.
    vm_compute in Hle. by apply Hle.
Qed.

(** C2, amended.  [list_todos] returns the caller's todos in table
    (insertion) order; the result is sorted by creation time ascending
    whenever the creation times of the table ascend in that order; on a
    store holding two Todos of the user, [list(offset=0, limit=1)]
    returns exactly one Todo, the first inserted one, which is the
    earliest-created one under the same condition. *)
Theorem list_todos_table_order (db : DB) (u : User) (skip limit : Z) :
  ∃ page,
    list_todos u skip limit db = (inr page, db)
    ∧ page `sublist_of` todos db
    ∧ (StronglySorted created_le (todos db) → StronglySorted created_le page)
    ∧ (∀ t1 t2,
         filter (λ t, user_id t = user_id_of u) (todos db) = [t1; t2] →
         list_todos u 0 1 db = (inr [t1], db)
         ∧ (StronglySorted created_le (todos db) → created_le t1 t2)).
Proof.
  exists (query_todos (user_id_of u) skip limit (todos db)). split_and!.
  - apply list_todos_run.
  - apply query_todos_sublist.
  - apply StronglySorted_sublist, query_todos_sublist.
  - intros t1 t2 Hf. split.
    + rewrite list_todos_run. unfold query_todos. by rewrite Hf.
    + intros Hs.
      assert (Hs' : StronglySorted created_le [t1; t2]).
      { rewrite <- Hf. eapply StronglySorted_sublist; [apply sublist_filter|done]. }
      apply StronglySorted_cons in Hs' as [Hall _].
      by apply Forall_cons in Hall as [? _].
Qed.

Lemma list_todos_table_order_witness :
  ∃ page,
    result_of (list_todos Fixture.alice 0 1 Fixture.db_clock_set_back) = inr page
    ∧ page `sublist_of` todos Fixture.db_clock_set_back.
Proof.
  destruct (list_todos_table_order Fixture.db_clock_set_back Fixture.alice 0 1)
    as (page & Hrun & Hsub & _).
  exists page. split; [by rewrite Hrun | exact Hsub].
Defined.

(** ** Listing: size *)

(** C3, as the claim states it, fails: no maximum bounds the number of
    Todos a call returns; a caller who passes a limit above any candidate
    maximum gets that many. *)
Lemma list_todos_no_pagination_maximum :
  ¬ ∃ maximum : nat,
      ∀ (db : DB) (u : User) (skip limit : Z) (page : list Todo),
        result_of (list_todos u skip limit db) = inr page →
        (length page ≤ maximum)%nat.
Proof.
  intros [maximum H].
  specialize (H (Fixture.db_many (S maximum)) Fixture.alice 0
                (Z.of_nat (S maximum)) _ eq_refl).
  destruct (db_many_todos (S maximum)) as [Hlen Hown].
  unfold query_todos, sql_limit, sql_offset in H.
  cbn [user_id_of Fixture.alice] in H.
  rewrite filter_all in H by done.
  destruct (Z.ltb_spec (Z.of_nat (S maximum)) 0) as [?|_]; [lia|].
  rewrite Nat2Z.id in H. change (Z.to_nat 0) with 0%nat in H.
  rewrite drop_0, take_ge, Hlen in H by lia. lia.
Qed.

(** C3, amended.  The number of Todos returned never exceeds the limit
    the caller passes when that limit is not negative, whatever its
    size, and never exceeds 100 when the caller passes none; a negative
    limit returns every Todo of the caller after the offset. *)
Theorem list_todos_length_le_limit (db : DB) (u : User) (skip limit : Z) :
  0 ≤ limit →
  (∃ page, list_todos u skip limit db = (inr page, db)
           ∧ Z.of_nat (length page) ≤ limit)
  ∧ (∃ page, list_todos_params u (Some skip) None db = (inr page, db)
             ∧ (length page ≤ 100)%nat)
  ∧ (∀ unbounded, unbounded < 0 →
       list_todos u skip unbounded db
       = (inr (sql_offset skip
                 (filter (λ t, user_id t = user_id_of u) (todos db))), db)).
Proof.
  intros Hlimit. split_and!.
  - eexists. split; [apply list_todos_run|].
    by apply sql_limit_length.
  - eexists. split; [apply list_todos_run|].
    apply Nat2Z.inj_le. by apply (sql_limit_length 100).
  - intros unbounded Hneg. rewrite list_todos_run.
    unfold query_todos, sql_limit.
    by destruct (Z.ltb_spec unbounded 0) as [_|?]; [|lia].
Qed.

Lemma list_todos_length_le_limit_witness :
  0 ≤ 2
  ∧ ∃ page, list_todos Fixture.alice 0 2 (Fixture.db_many 5)
            = (inr page, Fixture.db_many 5)
            ∧ Z.of_nat (length page) ≤ 2.
Proof.
  assert (H : 0 ≤ 2) by lia.
  split; [exact H|].
  exact (proj1 (list_todos_length_le_limit (Fixture.db_many 5) Fixture.alice 0 2 H)).
Defined.

(** ** Creating a todo: validation and persistence *)

(** C8. For every user and every store, [create] with an empty title
    fails with [ValidationError] and leaves the store as it was; with a
    non-empty title it appends exactly one new Todo, owned by the user,
    with that title and a fresh identifier, and changes nothing else. *)
Theorem create_validates_and_persists (u : User) (raw_title : string)
    (now : Z) (db : DB) :
  (raw_title = "" →
     create u raw_title now db = (inl (ValidationError "title"), db))
  ∧ (raw_title ≠ "" →
     ∃ t, create u raw_title now db
          = (inr t, mkDB (users db) (todos db ++ [t]))
          ∧ user_id t = user_id_of u
          ∧ title t = raw_title
          ∧ (todo_id t ∉ todo_id <$> todos db)
          ∧ t ∉ todos db).
Proof.
  split.
  - by intros ->.
  - intros Hne. unfold create, parse_TodoCreate. case_decide; [done|].
    rewrite create_todo_run. cbn zeta. eexists. split; [reflexivity|].
    simpl. split_and!; try done.
    + apply next_id_fresh.
    + intros Hin. apply (list_elem_of_fmap_2 todo_id) in Hin.
      by apply next_id_fresh in Hin.
Qed.

Lemma create_validates_and_persists_witness :
  create Fixture.alice "" 7 Fixture.db_users
    = (inl (ValidationError "title"), Fixture.db_users)
  ∧ ∃ t, create Fixture.alice "Buy milk" 7 Fixture.db_users
         = (inr t, mkDB (users Fixture.db_users) (todos Fixture.db_users ++ [t]))
         ∧ user_id t = 1.
Proof.
  split.
  - exact (proj1 (create_validates_and_persists Fixture.alice "" 7 Fixture.db_users)
                 eq_refl).
  - destruct (proj2 (create_validates_and_persists Fixture.alice "Buy milk" 7
                       Fixture.db_users) ltac:(discriminate))
      as (t & Hrun & Hown & _).
    exists t. split; [exact Hrun | exact Hown].
Defined.

(** ** The auth service *)

Section AuthProperties.

Variables SECRET_KEY ALGORITHM : string.
Variable jws_sign : string → string → gmap string JVal → string.
Variable pwd_hash : string → string → string.
Variable pwd_verify : string → string → bool.
Variable valid_email : string → bool.
Variable int_of_str : string → option Z.
Variable get_user_by_id : JVal → DB → option User.

Local Abbreviation encode := (jwt_encode jws_sign).
Local Abbreviation decode := (jwt_decode jws_sign int_of_str).
Local Abbreviation validate := (validate_claims int_of_str).
Local Abbreviation mint := (create_access_token SECRET_KEY ALGORITHM jws_sign).
Local Abbreviation verify :=
  (verify_token SECRET_KEY ALGORITHM jws_sign int_of_str).
Local Abbreviation current_user :=
  (get_current_user SECRET_KEY ALGORITHM jws_sign int_of_str get_user_by_id).
Local Abbreviation login := (authenticate SECRET_KEY ALGORITHM jws_sign pwd_verify).
Local Abbreviation signup := (register pwd_hash).
Local Abbreviation signup_route := (register_route pwd_hash valid_email).
Local Abbreviation serve_at :=
  (serve SECRET_KEY ALGORITHM jws_sign pwd_hash pwd_verify valid_email
         int_of_str get_user_by_id).
Local Abbreviation run_from :=
  (run SECRET_KEY ALGORITHM jws_sign pwd_hash pwd_verify valid_email
       int_of_str get_user_by_id).

(** *** Decoding what was encoded *)

Lemma decode_encode (claims : gmap string JVal) (now : Z) :
  decode (encode claims SECRET_KEY ALGORITHM) SECRET_KEY [ALGORITHM] now
  = match validate claims now with
    | Some e => inl e
    | None => inr claims
    end.
Proof.
  unfold jwt_encode, jwt_decode.
  rewrite !bool_decide_eq_true_2; [done..|].
  apply list_elem_of_here.
Qed.

(** The claims a login mints pass the validation until they expire. *)
Lemma validate_minted (data : gmap string JVal) (delta t0 now : Z) :
  plain_claims data →
  validate (<["exp" := JInt (t0 + delta)]> data) now
  = if t0 + delta <? now then Some JWTError else None.
Proof.
  intros (Hiat & Hnbf & Haud & Hjti & Hhash & Hsub).
  unfold validate_claims.
  rewrite lookup_insert_eq, !lookup_insert_ne by done.
  rewrite Hiat, Hnbf, Haud, Hjti, Hhash. simpl.
  destruct (t0 + delta <? now); [done|].
  by destruct Hsub as [-> | [s ->]].
Qed.

Lemma decode_minted (data : gmap string JVal) (delta t0 now : Z) :
  plain_claims data →
  decode (mint data delta t0) SECRET_KEY [ALGORITHM] now
  = if t0 + delta <? now then inl JWTError
    else inr (<["exp" := JInt (t0 + delta)]> data).
Proof.
  intros Hplain. unfold create_access_token.
  rewrite decode_encode, validate_minted by done.
  by destruct (t0 + delta <? now).
Qed.

(** *** What the token check and [get_current_user] take from the store *)

Lemma verify_token_run (token : Token) (now : Z) (db db' : DB) :
  verify token now db = (result_of (verify token now db'), db).
Proof.
  unfold verify_token.
  destruct (decode token SECRET_KEY [ALGORITHM] now) as [[]|payload]; [done..|].
  by destruct (payload !! "sub") as [[]|].
Qed.

Lemma get_current_user_run (token : Token) (now : Z) (db : DB) :
  current_user token now db
  = match result_of (verify token now db) with
    | inl f => (inl f, db)
    | inr user_id =>
        match get_user_by_id user_id db with
        | None => (inl (HTTPException 401 "User not found"), db)
        | Some user => (inr user, db)
        end
    end.
Proof.
  unfold get_current_user. cbv [mbind Handler_bind].
  pose proof (verify_token_run token now db db) as Hrun.
  destruct (verify token now db) as [r db0].
  injection Hrun as ->. unfold result_of. cbn [fst].
  destruct r as [f|user_id]; [done|].
  cbv [read_db]. by destruct (get_user_by_id user_id db).
Qed.

Lemma get_current_user_store (token : Token) (now : Z) (db : DB) :
  store_of (current_user token now db) = db.
Proof.
  rewrite get_current_user_run.
  destruct (result_of (verify token now db)) as [f|user_id]; [done|].
  by destruct (get_user_by_id user_id db).
Qed.

(** C4. The token check of [get_current_user], the [verify] of the
    specification, is a function of the token, the signing secret and
    the time of the call: it reads nothing from the store, its result
    is the same in all store states, and the store is unchanged by it.
    [get_current_user] then calls [get_user_by_id]; it leaves the store
    unchanged too, fails as the token check fails in every store state,
    and depends on the store only through the answer of
    [get_user_by_id]. *)
Theorem verify_token_pure (token : Token) (now : Z) (db db' : DB) :
  result_of (verify token now db') = result_of (verify token now db)
  ∧ store_of (verify token now db) = db
  ∧ store_of (current_user token now db) = db
  ∧ (∀ f, result_of (verify token now db) = inl f →
       result_of (current_user token now db') = inl f)
  ∧ (∀ user_id, result_of (verify token now db) = inr user_id →
       get_user_by_id user_id db' = get_user_by_id user_id db →
       result_of (current_user token now db') = result_of (current_user token now db)).
Proof.
  assert (Hsame : result_of (verify token now db') = result_of (verify token now db)).
  { by rewrite (verify_token_run token now db' db). }
  split_and!.
  - exact Hsame.
  - by rewrite (verify_token_run token now db db).
  - apply get_current_user_store.
  - intros f Hf. rewrite get_current_user_run, Hsame, Hf. done.
  - intros user_id Hok Hlookup.
    rewrite !get_current_user_run, Hsame, Hok, Hlookup.
    by destruct (get_user_by_id user_id db).
Qed.

(** *** Lookups in the users table *)

Lemma head_filter_elem {A} (P : A → Prop) `{!∀ x, Decision (P x)}
    (l : list A) (x : A) :
  head (filter P l) = Some x → P x ∧ x ∈ l.
Proof.
  intros Hhead%head_Some_elem_of. by apply list_elem_of_filter in Hhead.
Qed.

Lemma head_filter_is_Some {A} (P : A → Prop) `{!∀ x, Decision (P x)}
    (l : list A) (x : A) :
  x ∈ l → P x → ∃ y, head (filter P l) = Some y ∧ P y.
Proof.
  intros Hin HP.
  destruct (head (filter P l)) as [y|] eqn:Hhead.
  - exists y. split; [done|]. by apply head_filter_elem in Hhead as [? _].
  - apply head_None in Hhead.
    by destruct (filter_nil_not_elem_of P l x).
Qed.

Lemma register_run (user_in : UserCreate) (salt : string) (now : Z) (db : DB) :
  signup user_in salt now db
  = match head (filter (λ u, lower (email u) = lower (uc_email user_in)) (users db)) with
    | Some _ => (inl DuplicateEmail, db)
    | None =>
        let u := mkUser (next_id (user_id_of <$> users db)) (uc_email user_in)
                        (uc_full_name user_in)
                        (pwd_hash salt (uc_password user_in)) true now in
        (inr u, mkDB (users db ++ [u]) (todos db))
    end.
Proof.
  unfold register, get_user_by_email.
  cbv [mbind Handler_bind mret Handler_ret read_db].
  by destruct (head _).
Qed.

Lemma register_stores (user_in : UserCreate) (salt : string) (now : Z)
    (db db1 : DB) (u : User) :
  signup user_in salt now db = (inr u, db1) →
  users db1 = users db ++ [u]
  ∧ todos db1 = todos db
  ∧ email u = uc_email user_in
  ∧ hashed_password u = pwd_hash salt (uc_password user_in)
  ∧ head (filter (λ u, lower (email u) = lower (uc_email user_in)) (users db)) = None.
Proof.
  rewrite register_run. destruct (head _); [done|].
  cbn zeta. by intros [= <- <-].
Qed.

(** *** The users table only grows *)

Lemma authenticate_store (e password : string) (now : Z) (db : DB) :
  store_of (login e password now db) = db.
Proof.
  unfold authenticate, get_user_by_email.
  cbv [mbind Handler_bind mret Handler_ret read_db].
  destruct (head _) as [u|]; [|done]. by destruct (pwd_verify _ _).
Qed.

Lemma register_route_users (e p n salt : string) (now : Z) (db : DB) :
  ∃ more, users (signup_route e p n salt now db).2 = users db ++ more.
Proof.
  unfold register_route.
  destruct (parse_UserCreate _ _ _ _) as [f|user_in].
  { exists []. by rewrite app_nil_r. }
  rewrite register_run. destruct (head _).
  - exists []. by rewrite app_nil_r.
  - cbn zeta. eauto.
Qed.

Lemma serve_users (now : Z) (req : Request) (db : DB) :
  ∃ more, users (serve_at now req db) = users db ++ more.
Proof.
  destruct req as [e p n salt|e p|tok skip limit|tok raw_title]; simpl.
  - apply register_route_users.
  - exists []. by rewrite authenticate_store, app_nil_r.
  - exists []. rewrite app_nil_r.
    pose proof (get_current_user_store tok now db) as Hst.
    cbv [mbind Handler_bind].
    destruct (current_user tok now db) as [[f|u] db']; simpl in Hst; by subst.
  - exists []. rewrite app_nil_r.
    pose proof (get_current_user_store tok now db) as Hst.
    cbv [mbind Handler_bind].
    destruct (current_user tok now db) as [[f|u] db']; simpl in Hst; subst; [done|].
    unfold create. destruct (parse_TodoCreate raw_title); [done|].
    by rewrite create_todo_run.
Qed.

Lemma run_users (reqs : list (Z * Request)) (db : DB) :
  ∃ more, users (run_from reqs db) = users db ++ more.
Proof.
  revert db. induction reqs as [|[now req] reqs IH]; intros db.
  - exists []. by rewrite app_nil_r.
  - simpl. destruct (IH (serve_at now req db)) as [more2 ->].
    destruct (serve_users now req db) as [more1 ->].
    exists (more1 ++ more2). by rewrite app_assoc.
Qed.

(** *** Registration *)

Lemma UserResponse_shape (u : User) :
  response_model UserResponse_fields (User_model_dump u)
  = [ ("id", JInt (user_id_of u)); ("email", JStr (email u));
      ("full_name", JStr (full_name u)); ("is_active", JBool (is_active u));
      ("created_at", JInt (user_created_at u)) ].
Proof. by vm_compute. Qed.

(** Closes a goal [k ∉ keys] for a literal key and literal keys. *)
Ltac not_a_key :=
  let Hin := fresh "Hin" in
  intros Hin;
  repeat (apply elem_of_cons in Hin as [Hin|Hin]; [discriminate Hin|]);
  by apply elem_of_nil in Hin.

(** C5. In every state reached after a user was successfully registered
    with an email, registering again with an email that is equal to it
    under case-insensitive comparison fails with [DuplicateEmail], which
    the API layer answers with 409, and the store, its users included,
    is unchanged by the failed call. *)
Theorem register_duplicate_email (db db1 : DB) (first second : UserCreate)
    (salt salt' : string) (now now' : Z) (u : User) (later : list (Z * Request)) :
  signup first salt now db = (inr u, db1) →
  lower (uc_email second) = lower (uc_email first) →
  let db2 := run_from later db1 in
  signup second salt' now' db2 = (inl DuplicateEmail, db2)
  ∧ status_of DuplicateEmail = 409%nat
  ∧ (∀ raw_password raw_full_name,
       parse_UserCreate valid_email (uc_email second) raw_password raw_full_name
       = inr (mkUserCreate (uc_email second) raw_password raw_full_name) →
       let answer := signup_route (uc_email second) raw_password raw_full_name
                                  salt' now' db2 in
       status answer.1 = 409%nat ∧ answer.2 = db2).
Proof.
  intros Hreg Hsame db2.
  apply register_stores in Hreg as (Husers & _ & Hemail & _).
  assert (Hdup : ∀ uc salt0 t, uc_email uc = uc_email second →
                   signup uc salt0 t db2 = (inl DuplicateEmail, db2)).
  { intros uc salt0 t Huc. rewrite register_run, Huc.
    destruct (run_users later db1) as [more Hmore]. fold db2 in Hmore.
    destruct (head_filter_is_Some
                (λ u, lower (email u) = lower (uc_email second)) (users db2) u)
      as (y & -> & _); [|congruence|done].
    rewrite Hmore, Husers. set_solver. }
  split_and!.
  - by apply Hdup.
  - done.
  - intros raw_password raw_full_name Hparse answer. subst answer.
    unfold register_route. rewrite Hparse.
    by rewrite Hdup.
Qed.

(** C7. For every successful registration the response is 201 and its
    body is the User without a password-hash field: the five public
    fields, no [hashed_password], no [password]; the hash is what the
    store keeps.  No answer of the route, failed ones included, has a
    [hashed_password] field. *)
Theorem register_route_hides_hash (db db1 : DB) (raw_email raw_password
    raw_full_name salt : string) (now : Z) (user_in : UserCreate) (u : User) :
  parse_UserCreate valid_email raw_email raw_password raw_full_name = inr user_in →
  signup user_in salt now db = (inr u, db1) →
  ∃ answer,
    signup_route raw_email raw_password raw_full_name salt now db = (answer, db1)
    ∧ status answer = 201%nat
    ∧ body answer = [ ("id", JInt (user_id_of u)); ("email", JStr raw_email);
                      ("full_name", JStr raw_full_name); ("is_active", JBool true);
                      ("created_at", JInt now) ]
    ∧ ("hashed_password" ∉ (body answer).*1)
    ∧ ("password" ∉ (body answer).*1)
    ∧ u ∈ users db1
    ∧ hashed_password u = pwd_hash salt raw_password
    ∧ (∀ e p n s t d,
         "hashed_password" ∉ (body (signup_route e p n s t d).1).*1).
Proof.
  intros Hparse Hreg.
  assert (Hin : user_in = mkUserCreate raw_email raw_password raw_full_name).
  { unfold parse_UserCreate in Hparse.
    repeat match type of Hparse with
           | (if ?c then _ else _) = _ => destruct c; [discriminate|]
           end.
    by injection Hparse. }
  eexists. unfold register_route at 1. rewrite Hparse, Hreg.
  split; [reflexivity|].
  pose proof Hreg as (Husers & _ & Hemail & Hhash & _)%register_stores.
  rewrite register_run in Hreg. destruct (head _); [done|].
  cbn zeta in Hreg. injection Hreg as <- _. subst user_in.
  split_and!; try done.
  - vm_compute. not_a_key.
  - vm_compute. not_a_key.
  - rewrite Husers. apply elem_of_app. right. apply list_elem_of_here.
  - intros e p n s t d. unfold register_route.
    destruct (parse_UserCreate valid_email e p n) as [f|uc].
    { cbn. not_a_key. }
    destruct (signup uc s t d) as [[f|u'] d'].
    + cbn. not_a_key.
    + cbn [fst body]. rewrite UserResponse_shape. cbn. not_a_key.
Qed.

(** *** Tokens: minting and checking *)

Lemma authenticate_run (e password : string) (now : Z) (db : DB) :
  login e password now db
  = match head (filter (λ u, lower (email u) = lower e) (users db)) with
    | None => (inl InvalidCredentials, db)
    | Some u =>
        if pwd_verify password (hashed_password u)
        then (inr (mint {[ "sub" := JStr (pretty (user_id_of u)) ]}
                        default_expires_delta now), db)
        else (inl InvalidCredentials, db)
    end.
Proof.
  unfold authenticate, get_user_by_email.
  cbv [mbind Handler_bind mret Handler_ret read_db].
  destruct (head _) as [u|]; [|done]. by destruct (pwd_verify _ _).
Qed.

(** A registered user who presents the registered password is given a
    token, provided the password context verifies what it hashed. *)
Lemma authenticate_after_register (db db1 : DB) (user_in : UserCreate)
    (salt e : string) (now t0 : Z) (u : User) :
  (∀ s p, pwd_verify p (pwd_hash s p) = true) →
  signup user_in salt now db = (inr u, db1) →
  lower e = lower (uc_email user_in) →
  login e (uc_password user_in) t0 db1
  = (inr (mint {[ "sub" := JStr (pretty (user_id_of u)) ]}
               default_expires_delta t0), db1).
Proof.
  intros Hpwd (Husers & _ & Hemail & Hhash & Hnone)%register_stores He.
  rewrite authenticate_run, He, Husers, filter_app.
  apply head_None in Hnone. rewrite Hnone, app_nil_l.
  rewrite filter_cons_True by congruence.
  simpl. by rewrite Hhash, Hpwd.
Qed.

Lemma plain_subject (s : string) :
  plain_claims ({[ "sub" := JStr s ]} : gmap string JVal).
Proof.
  unfold plain_claims. rewrite !lookup_singleton_ne by done.
  rewrite lookup_singleton_eq. split_and!; eauto.
Qed.

(** C6. A token minted by [authenticate] for a stored user has that
    user's id, written as a decimal string, as its subject, and the
    issue time plus the fixed lifetime as its expiry; the token check
    succeeds on it, returning that user id, at every time up to the
    expiry, in every store state, and fails with "Invalid token" at
    every time after the expiry; [get_current_user] then answers what
    [get_user_by_id] answers for that id, and refuses the token as
    invalid after the expiry. *)
Theorem token_round_trip (db db' : DB) (e password : string) (t0 : Z)
    (token : Token) :
  login e password t0 db = (inr token, db') →
  db' = db
  ∧ ∃ u,
      u ∈ users db
      ∧ lower (email u) = lower e
      ∧ pwd_verify password (hashed_password u) = true
      ∧ token_claims token !! "sub" = Some (JStr (pretty (user_id_of u)))
      ∧ token_claims token !! "exp" = Some (JInt (t0 + default_expires_delta))
      ∧ (∀ now store, now ≤ t0 + default_expires_delta →
           verify token now store = (inr (JStr (pretty (user_id_of u))), store))
      ∧ (∀ now store, t0 + default_expires_delta < now →
           verify token now store = (inl InvalidToken, store))
      ∧ (∀ now store, now ≤ t0 + default_expires_delta →
           current_user token now store
           = match get_user_by_id (JStr (pretty (user_id_of u))) store with
             | Some user => (inr user, store)
             | None => (inl (HTTPException 401 "User not found"), store)
             end)
      ∧ (∀ now store, t0 + default_expires_delta < now →
           current_user token now store = (inl InvalidToken, store))
      ∧ (∀ other, pretty (user_id_of other) = pretty (user_id_of u) →
           user_id_of other = user_id_of u).
Proof.
  rewrite authenticate_run.
  destruct (head _) as [u|] eqn:Hfound; [|done].
  destruct (pwd_verify password (hashed_password u)) eqn:Hpwd; [|done].
  intros [= <- <-]. split; [done|].
  apply head_filter_elem in Hfound as [Hemail Hin].
  set (sub := JStr (pretty (user_id_of u))).
  set (token := mint {[ "sub" := sub ]} default_expires_delta t0).
  assert (Hgood : ∀ now store, now ≤ t0 + default_expires_delta →
            verify token now store = (inr sub, store)).
  { intros now store Hnow. unfold verify_token, token.
    rewrite decode_minted by apply plain_subject.
    destruct (Z.ltb_spec (t0 + default_expires_delta) now) as [?|_]; [lia|].
    rewrite lookup_insert_ne by done. by rewrite lookup_singleton_eq. }
  assert (Hlate : ∀ now store, t0 + default_expires_delta < now →
            verify token now store = (inl InvalidToken, store)).
  { intros now store Hnow. unfold verify_token, token.
    rewrite decode_minted by apply plain_subject.
    by destruct (Z.ltb_spec (t0 + default_expires_delta) now) as [_|?]; [|lia]. }
  exists u. split_and!; try done.
  - intros now store Hnow. rewrite get_current_user_run, Hgood by done.
    by destruct (get_user_by_id sub store).
  - intros now store Hnow. by rewrite get_current_user_run, Hlate.
  - intros other Heq. by apply (inj pretty).
Qed.

End AuthProperties.

(** ** The properties at the fixtures *)

Lemma register_duplicate_email_witness :
  register Fixture.hash (mkUserCreate "A@X.com" "password123" "Al") "s9" 3001
    (run Fixture.secret Fixture.algorithm Fixture.sign Fixture.hash Fixture.verify
         Fixture.is_email Fixture.int_of_str Fixture.lookup
         [(2500, ReqCreateTodo Fixture.alice_token "Buy milk")]
         (store_of (register Fixture.hash
                      (mkUserCreate "a@x.com" "password123" "Alice") "s1" 1000
                      empty_db)))
  = (inl DuplicateEmail,
     run Fixture.secret Fixture.algorithm Fixture.sign Fixture.hash Fixture.verify
         Fixture.is_email Fixture.int_of_str Fixture.lookup
         [(2500, ReqCreateTodo Fixture.alice_token "Buy milk")]
         (store_of (register Fixture.hash
                      (mkUserCreate "a@x.com" "password123" "Alice") "s1" 1000
                      empty_db))).
Proof.
  exact (proj1 (register_duplicate_email
                  Fixture.secret Fixture.algorithm Fixture.sign Fixture.hash
                  Fixture.verify Fixture.is_email Fixture.int_of_str
                  Fixture.lookup
                  empty_db _
                  (mkUserCreate "a@x.com" "password123" "Alice")
                  (mkUserCreate "A@X.com" "password123" "Al")
                  "s1" "s9" 1000 3001 _
                  [(2500, ReqCreateTodo Fixture.alice_token "Buy milk")]
                  eq_refl eq_refl)).
Defined.

Lemma register_route_hides_hash_witness :
  ∃ answer db1,
    register_route Fixture.hash Fixture.is_email
      "c@x.com" "password123" "Carol" "s3" 1002 Fixture.db_users = (answer, db1)
    ∧ status answer = 201%nat
    ∧ "hashed_password" ∉ (body answer).*1.
Proof.
  destruct (register_route_hides_hash Fixture.hash Fixture.is_email
              Fixture.db_users _ "c@x.com" "password123" "Carol" "s3" 1002 _ _
              eq_refl eq_refl)
    as (answer & Hrun & Hstatus & _ & Hkey & _).
  exists answer. eexists. split_and!; [exact Hrun | exact Hstatus | exact Hkey].
Defined.

Lemma token_round_trip_witness :
  ∃ token,
    authenticate Fixture.secret Fixture.algorithm Fixture.sign Fixture.verify
      "A@x.com" "password123" 2000 Fixture.db_users = (inr token, Fixture.db_users)
    ∧ verify_token Fixture.secret Fixture.algorithm Fixture.sign Fixture.int_of_str
        token 2900 empty_db = (inr (JStr "1"), empty_db)
    ∧ verify_token Fixture.secret Fixture.algorithm Fixture.sign Fixture.int_of_str
        token 2901 empty_db = (inl InvalidToken, empty_db).
Proof.
  destruct (token_round_trip Fixture.secret Fixture.algorithm Fixture.sign
              Fixture.verify Fixture.int_of_str Fixture.lookup
              Fixture.db_users _ "A@x.com" "password123" 2000 _ eq_refl)
    as (_ & u & _ & _ & _ & Hsub & _ & Hbefore & Hafter & _).
  eexists. split_and!; [reflexivity | |].
  - assert (Hid : JStr "1" = JStr (pretty (user_id_of u))).
    { cbn [token_claims create_access_token jwt_encode] in Hsub.
      rewrite lookup_insert_ne, lookup_singleton_eq in Hsub by done.
      injection Hsub as <-. by vm_compute. }
    rewrite Hid. apply (Hbefore 2900 empty_db). vm_compute. discriminate.
  - apply (Hafter 2901 empty_db). reflexivity.
Defined.

Lemma verify_token_pure_witness :
  result_of (verify_token Fixture.secret Fixture.algorithm Fixture.sign
               Fixture.int_of_str Fixture.alice_token 2100 empty_db)
  = result_of (verify_token Fixture.secret Fixture.algorithm Fixture.sign
                 Fixture.int_of_str Fixture.alice_token 2100 Fixture.db_users)
  ∧ result_of (verify_token Fixture.secret Fixture.algorithm Fixture.sign
                 Fixture.int_of_str Fixture.alice_token 2100 Fixture.db_users)
    = inr (JStr "1").
Proof.
  split; [|by vm_compute].
  exact (proj1 (verify_token_pure Fixture.secret Fixture.algorithm Fixture.sign
                  Fixture.int_of_str Fixture.lookup
                  Fixture.alice_token 2100 Fixture.db_users empty_db)).
Defined.

(** * Further properties of the routes *)

(** ** Paging through the listing *)

Lemma listing_eq (u : User) (skip limit : Z) (db : DB) :
  listing u skip limit db
  = sql_limit limit
      (sql_offset skip (filter (λ t, user_id t = user_id_of u) (todos db))).
Proof. reflexivity. Qed.

(** X1. Consecutive pages join up: for a non-negative offset and
    non-negative sizes, the page of [n] Todos at [skip] followed by the
    page of [m] Todos at [skip + n] is the page of [n + m] Todos at
    [skip]; nothing is lost or repeated between two pages. *)
Theorem listing_pages_compose (db : DB) (u : User) (skip n m : Z) :
  0 ≤ skip → 0 ≤ n → 0 ≤ m →
  listing u skip n db ++ listing u (skip + n) m db = listing u skip (n + m) db.
Proof.
  intros Hskip Hn Hm. rewrite !listing_eq. unfold sql_limit, sql_offset.
  destruct (Z.ltb_spec n 0); [lia|].
  destruct (Z.ltb_spec m 0); [lia|].
  destruct (Z.ltb_spec (n + m) 0); [lia|].
  rewrite !Z2Nat.inj_add by lia.
  rewrite <- drop_drop. apply take_take_drop.
Qed.

Lemma listing_pages_compose_witness :
  listing Fixture.alice 0 1 Fixture.db_clock_set_back
  ++ listing Fixture.alice (0 + 1) 1 Fixture.db_clock_set_back
  = listing Fixture.alice 0 (1 + 1) Fixture.db_clock_set_back.
Proof.
  apply listing_pages_compose; lia.
Defined.

(** X2. A client that walks the listing with a fixed non-negative page
    size, asking for page 0, 1, ..., k-1 at offsets 0, n, 2n, ...,
    collects the first k*n Todos of the caller in table order, and
    all of them once k*n reaches their number. *)
Theorem listing_walk (db : DB) (u : User) (n : Z) (k : nat) :
  0 ≤ n →
  let owned := filter (λ t, user_id t = user_id_of u) (todos db) in
  mjoin ((λ i : nat, listing u (Z.of_nat i * n) n db) <$> seq 0 k)
  = take (k * Z.to_nat n) owned
  ∧ ((length owned ≤ k * Z.to_nat n)%nat →
     mjoin ((λ i : nat, listing u (Z.of_nat i * n) n db) <$> seq 0 k) = owned).
Proof.
  intros Hn owned.
  assert (Hwalk : mjoin ((λ i : nat, listing u (Z.of_nat i * n) n db) <$> seq 0 k)
                  = take (k * Z.to_nat n) owned).
  { induction k as [|k IH]; [done|].
    rewrite seq_S, fmap_app, join_app, IH. simpl. rewrite app_nil_r.
    rewrite listing_eq. fold owned. unfold sql_limit, sql_offset.
    destruct (Z.ltb_spec n 0); [lia|].
    replace (Z.to_nat (Z.of_nat k * n)) with (k * Z.to_nat n)%nat by lia.
    rewrite take_take_drop. f_equal. lia. }
  split; [exact Hwalk|].
  intros Hall. rewrite Hwalk. by apply take_ge.
Qed.

Lemma listing_walk_witness :
  mjoin ((λ i : nat, listing Fixture.alice (Z.of_nat i * 1) 1
                       Fixture.db_clock_set_back) <$> seq 0 2)
  = todos Fixture.db_clock_set_back.
Proof.
  refine (proj2 (listing_walk Fixture.db_clock_set_back Fixture.alice 1 2 _) _).
  - lia.
  - vm_compute. lia.
Defined.

(** X3. The edges of a page: a limit of 0 returns nothing; an offset at
    or beyond the number of the caller's Todos returns nothing, whatever
    the limit; a negative offset is the offset 0. *)
Theorem listing_edges (db : DB) (u : User) (skip limit : Z) :
  listing u skip 0 db = []
  ∧ (Z.of_nat (length (filter (λ t, user_id t = user_id_of u) (todos db))) ≤ skip →
     listing u skip limit db = [])
  ∧ (skip ≤ 0 → listing u skip limit db = listing u 0 limit db).
Proof.
  rewrite !listing_eq. unfold sql_limit, sql_offset. split_and!.
  - simpl. apply take_0.
  - intros Hpast. rewrite drop_ge by lia. by destruct (limit <? 0); [|apply take_nil].
  - intros Hneg. by replace (Z.to_nat skip) with (Z.to_nat 0) by lia.
Qed.

Lemma listing_edges_witness :
  listing Fixture.alice 2 100 Fixture.db_clock_set_back = []
  ∧ listing Fixture.alice (-5) 100 Fixture.db_clock_set_back
    = listing Fixture.alice 0 100 Fixture.db_clock_set_back.
Proof.
  destruct (listing_edges Fixture.db_clock_set_back Fixture.alice 2 100)
    as (_ & Hpast & _).
  destruct (listing_edges Fixture.db_clock_set_back Fixture.alice (-5) 100)
    as (_ & _ & Hneg).
  split; [apply Hpast; vm_compute; discriminate | apply Hneg; lia].
Defined.

(** ** Creating, then listing *)

(** X4. After [create_todo] for a user, the complete listing of that
    user (no limit) is the complete listing from before followed by the
    new Todo, and every listing of every other user is what it was. *)
Theorem create_todo_then_listing (db db' : DB) (u : User) (todo_in : TodoCreate)
    (now : Z) (t : Todo) :
  create_todo todo_in u now db = (inr t, db') →
  listing u 0 (-1) db' = listing u 0 (-1) db ++ [t]
  ∧ (∀ v skip limit, user_id_of v ≠ user_id_of u →
       listing v skip limit db' = listing v skip limit db).
Proof.
  rewrite create_todo_run. cbn zeta. intros [= <- <-]. split.
  - rewrite !listing_eq. cbn [todos]. unfold sql_limit, sql_offset.
    change (-1 <? 0) with true. cbn iota. change (Z.to_nat 0) with 0%nat.
    rewrite !drop_0, filter_app. f_equal.
    by rewrite filter_cons_True.
  - intros v skip limit Hne. rewrite !listing_eq. cbn [todos].
    rewrite filter_app, filter_cons_False, filter_nil, app_nil_r; [done|].
    simpl. congruence.
Qed.

Lemma create_todo_then_listing_witness :
  ∃ t db',
    create_todo (mkTodoCreate "Buy milk") Fixture.alice 2500
      Fixture.db_clock_set_back = (inr t, db')
    ∧ listing Fixture.alice 0 (-1) db'
      = listing Fixture.alice 0 (-1) Fixture.db_clock_set_back ++ [t].
Proof.
  eexists. eexists. split; [rewrite create_todo_run; reflexivity|].
  exact (proj1 (create_todo_then_listing Fixture.db_clock_set_back _
                  Fixture.alice (mkTodoCreate "Buy milk") 2500 _ eq_refl)).
Defined.

(** X5. The listing without query parameters stops at 100 Todos: a Todo
    that [create_todo] has just stored shows up in the caller's default
    listing exactly when the caller had fewer than 100 Todos before. *)
Theorem create_todo_in_default_listing (db db' : DB) (u : User)
    (todo_in : TodoCreate) (now : Z) (t : Todo) :
  create_todo todo_in u now db = (inr t, db') →
  t ∈ default_listing u db'
  ↔ (length (filter (λ t, user_id t = user_id_of u) (todos db)) < 100)%nat.
Proof.
  rewrite create_todo_run. cbn zeta. intros [= <- <-].
  set (t := mkTodo _ _ _ _ _).
  assert (Hfresh : t ∉ filter (λ t, user_id t = user_id_of u) (todos db)).
  { intros [_ Hin]%list_elem_of_filter.
    apply (list_elem_of_fmap_2 todo_id) in Hin.
    by apply next_id_fresh in Hin. }
  unfold default_listing, list_todos_params. rewrite list_todos_run.
  cbn [result_of fst default todos]. unfold query_todos, sql_limit, sql_offset.
  change (100 <? 0) with false. cbn iota.
  change (Z.to_nat 0) with 0%nat. change (Z.to_nat 100) with 100%nat.
  rewrite drop_0, filter_app, filter_cons_True, filter_nil by done.
  set (owned := filter _ (todos db)) in *.
  split.
  - intros Hin. destruct (decide (length owned < 100)%nat) as [|Hge]; [done|].
    rewrite take_app_le in Hin by lia.
    destruct Hfresh. eapply elem_of_sublist; [exact Hin | apply sublist_take].
  - intros Hlt. rewrite take_ge by (rewrite length_app; simpl; lia).
    apply elem_of_app. right. apply list_elem_of_here.
Qed.

Lemma create_todo_in_default_listing_witness :
  ∃ t db',
    create_todo (mkTodoCreate "Buy milk") Fixture.alice 2500
      Fixture.db_clock_set_back = (inr t, db')
    ∧ t ∈ default_listing Fixture.alice db'.
Proof.
  eexists. eexists. split; [rewrite create_todo_run; reflexivity|].
  apply (create_todo_in_default_listing Fixture.db_clock_set_back _
           Fixture.alice (mkTodoCreate "Buy milk") 2500 _ eq_refl).
  vm_compute. lia.
Defined.

Lemma StronglySorted_lt_NoDup (ids : list Z) :
  StronglySorted Z.lt ids → NoDup ids.
Proof.
  induction 1 as [|x l _ IH Hall]; constructor; [|done].
  intros Hin. rewrite Forall_forall in Hall. specialize (Hall x Hin). lia.
Qed.

Section EndpointProperties.

Variables SECRET_KEY ALGORITHM : string.
Variable jws_sign : string → string → gmap string JVal → string.
Variable int_of_str : string → option Z.
Variable get_user_by_id : JVal → DB → option User.

Local Abbreviation decode := (jwt_decode jws_sign int_of_str).
Local Abbreviation validate := (validate_claims int_of_str).
Local Abbreviation mint := (create_access_token SECRET_KEY ALGORITHM jws_sign).
Local Abbreviation verify :=
  (verify_token SECRET_KEY ALGORITHM jws_sign int_of_str).
Local Abbreviation current_user :=
  (get_current_user SECRET_KEY ALGORITHM jws_sign int_of_str get_user_by_id).
Local Abbreviation get_todos :=
  (list_todos_endpoint SECRET_KEY ALGORITHM jws_sign int_of_str get_user_by_id).
Local Abbreviation post_todos :=
  (create_todo_endpoint SECRET_KEY ALGORITHM jws_sign int_of_str get_user_by_id).

(** ** What a decoded token is *)

Lemma validate_time_None (claim : option JVal) (refused : Z → bool) :
  validate_time int_of_str claim refused = None →
  ∀ v, claim = Some v → ∃ z, py_int int_of_str v = IntOk z ∧ refused z = false.
Proof.
  unfold validate_time. intros Hok v ->.
  destruct (py_int int_of_str v) as [z| |]; [|done..].
  exists z. split; [done|]. by destruct (refused z).
Qed.

Lemma validate_claims_None (claims : gmap string JVal) (now : Z) :
  validate claims now = None →
  validate_time int_of_str (claims !! "iat") (λ _, false) = None
  ∧ validate_time int_of_str (claims !! "nbf") (λ nbf, now <? nbf) = None
  ∧ validate_time int_of_str (claims !! "exp") (λ exp, exp <? now) = None
  ∧ validate_absent (claims !! "aud") = None
  ∧ validate_str (claims !! "sub") = None
  ∧ validate_str (claims !! "jti") = None
  ∧ validate_absent (claims !! "at_hash") = None.
Proof.
  unfold validate_claims, first_error. cbn [foldr].
  destruct (validate_time _ (claims !! "iat") _); [done|].
  destruct (validate_time _ (claims !! "nbf") _); [done|].
  destruct (validate_time _ (claims !! "exp") _); [done|].
  destruct (validate_absent (claims !! "aud")); [done|].
  destruct (validate_str (claims !! "sub")); [done|].
  destruct (validate_str (claims !! "jti")); [done|].
  by destruct (validate_absent (claims !! "at_hash")).
Qed.

Lemma decode_inr (token : Token) (key : string) (algorithms : list string)
    (now : Z) (payload : gmap string JVal) :
  decode token key algorithms now = inr payload →
  ∃ alg, token = JWS alg payload (jws_sign key alg payload)
         ∧ alg ∈ algorithms
         ∧ validate payload now = None.
Proof.
  destruct token as [raw|alg claims sig]; [done|]. simpl.
  destruct (bool_decide (alg ∈ algorithms)) eqn:Halg; [|done].
  destruct (bool_decide (sig = jws_sign key alg claims)) eqn:Hsig; [|done].
  apply bool_decide_eq_true in Halg, Hsig. subst sig. simpl.
  destruct (validate claims now) eqn:Hvalid; [done|].
  intros [= <-]. eauto.
Qed.

(** The subject of a decoded token is a string, if it has one. *)
Lemma decode_subject (token : Token) (now : Z) (payload : gmap string JVal) :
  decode token SECRET_KEY [ALGORITHM] now = inr payload →
  payload !! "sub" = None ∨ ∃ s, payload !! "sub" = Some (JStr s).
Proof.
  intros (alg & _ & _ & Hvalid)%decode_inr.
  apply validate_claims_None in Hvalid as (_ & _ & _ & _ & Hsub & _).
  destruct (payload !! "sub") as [[| | |s]|]; try done; eauto.
Qed.

Lemma verify_token_cases (token : Token) (now : Z) (db : DB) :
  result_of (verify token now db)
  = match decode token SECRET_KEY [ALGORITHM] now with
    | inl JWTError => inl (HTTPException 401 "Invalid token")
    | inl TypeError => inl (Unhandled "TypeError")
    | inr payload =>
        match payload !! "sub" with
        | Some (JStr s) => inr (JStr s)
        | _ => inl (HTTPException 401 "Invalid token")
        end
    end.
Proof.
  unfold verify_token.
  destruct (decode token SECRET_KEY [ALGORITHM] now) as [[]|payload] eqn:Hdec;
    [done..|].
  destruct (decode_subject _ _ _ Hdec) as [-> | [s ->]]; done.
Qed.

(** X6. What [get_current_user] accepts: whenever it returns a user, the
    token is a signed token under the configured algorithm whose
    signature is the one the server's secret gives to its claims; its
    subject is a string, and the user is the answer of [get_user_by_id]
    for that subject; it has no audience and no access-token hash; its
    expiry, if it has one, has not passed, and its not-before time, if
    it has one, has come. *)
Theorem get_current_user_sound (token : Token) (now : Z) (db : DB) (u : User) :
  result_of (current_user token now db) = inr u →
  token = JWS ALGORITHM (token_claims token)
              (jws_sign SECRET_KEY ALGORITHM (token_claims token))
  ∧ (∃ s, token_claims token !! "sub" = Some (JStr s)
          ∧ get_user_by_id (JStr s) db = Some u)
  ∧ token_claims token !! "aud" = None
  ∧ token_claims token !! "at_hash" = None
  ∧ (∀ v, token_claims token !! "exp" = Some v →
       ∃ exp, py_int int_of_str v = IntOk exp ∧ now ≤ exp)
  ∧ (∀ v, token_claims token !! "nbf" = Some v →
       ∃ nbf, py_int int_of_str v = IntOk nbf ∧ nbf ≤ now).
Proof.
  rewrite get_current_user_run, verify_token_cases.
  destruct (decode token SECRET_KEY [ALGORITHM] now) as [[]|payload] eqn:Hdec;
    [done..|].
  apply decode_inr in Hdec as (alg & -> & Halg & Hvalid).
  apply list_elem_of_singleton in Halg as ->. cbn [token_claims].
  apply validate_claims_None in Hvalid as (_ & Hnbf & Hexp & Haud & _ & _ & Hhash).
  destruct (payload !! "sub") as [[| | |s]|] eqn:Hsub; try done.
  destruct (get_user_by_id (JStr s) db) as [u'|] eqn:Hlookup; [|done].
  intros [= <-]. split_and!.
  - done.
  - eauto.
  - by destruct (payload !! "aud").
  - by destruct (payload !! "at_hash").
  - intros v Hv. destruct (validate_time_None _ _ Hexp v Hv) as (exp & Hint & Hle).
    exists exp. split; [done|]. apply Z.ltb_ge in Hle. lia.
  - intros v Hv. destruct (validate_time_None _ _ Hnbf v Hv) as (nbf & Hint & Hle).
    exists nbf. split; [done|]. apply Z.ltb_ge in Hle. lia.
Qed.


(** X8. What [create_access_token] mints: the expiry of the token is
    the issue time plus the lifetime, even when the data already holds
    an [exp] of its own, and every other claim of the data is in the
    token as it was.  For the data of a login, which holds of the
    registered claims at most a string subject, the token decodes under
    the server's secret to its claims at every time up to the expiry
    and is refused with a [JWTError] at every later time. *)
Theorem create_access_token_round_trip (data : gmap string JVal)
    (expires_delta t0 now : Z) :
  let token := mint data expires_delta t0 in
  token_claims token !! "exp" = Some (JInt (t0 + expires_delta))
  ∧ (∀ k, k ≠ "exp" → token_claims token !! k = data !! k)
  ∧ (plain_claims data → now ≤ t0 + expires_delta →
     decode token SECRET_KEY [ALGORITHM] now = inr (token_claims token))
  ∧ (plain_claims data → t0 + expires_delta < now →
     decode token SECRET_KEY [ALGORITHM] now = inl JWTError).
Proof.
  intros token. subst token. split_and!.
  - apply lookup_insert_eq.
  - intros k Hk. by apply lookup_insert_ne.
  - intros Hplain Hle.
    rewrite (decode_minted SECRET_KEY ALGORITHM jws_sign int_of_str) by done.
    by destruct (Z.ltb_spec (t0 + expires_delta) now); [lia|].
  - intros Hplain Hlt.
    rewrite (decode_minted SECRET_KEY ALGORITHM jws_sign int_of_str) by done.
    by destruct (Z.ltb_spec (t0 + expires_delta) now); [|lia].
Qed.

(** ** The routes behind their auth dependencies *)

Lemma oauth2_scheme_run (authorization : option (string * Token)) (db : DB) :
  (∃ scheme token, authorization = Some (scheme, token)
                   ∧ lower scheme = "bearer"
                   ∧ oauth2_scheme authorization db = (inr token, db))
  ∨ ((∀ scheme token, authorization = Some (scheme, token) →
        lower scheme ≠ "bearer")
     ∧ oauth2_scheme authorization db
       = (inl (HTTPException 401 "Not authenticated"), db)).
Proof.
  destruct authorization as [[scheme token]|]; simpl.
  - case_decide.
    + left. by exists scheme, token.
    + right. split; [|done]. by intros ?? [= <- <-].
  - right. by split.
Qed.

Lemma current_user_cases (token : Token) (now : Z) (db : DB) :
  (∃ f, current_user token now db = (inl f, db))
  ∨ (∃ u, current_user token now db = (inr u, db)).
Proof.
  pose proof (get_current_user_store SECRET_KEY ALGORITHM jws_sign int_of_str
                get_user_by_id token now db) as Hst.
  destruct (current_user token now db) as [[f|u] db'] eqn:Hrun;
    simpl in Hst; subst db'; eauto.
Qed.

(** The three ways a route with the auth dependencies starts: no bearer
    header, a bearer token that is refused, a bearer token that gives
    the caller. *)
Lemma auth_cases (authorization : option (string * Token)) (now : Z) (db : DB) :
  ((∀ scheme token, authorization = Some (scheme, token) → lower scheme ≠ "bearer")
   ∧ oauth2_scheme authorization db
     = (inl (HTTPException 401 "Not authenticated"), db))
  ∨ (∃ scheme token f,
       authorization = Some (scheme, token) ∧ lower scheme = "bearer"
       ∧ oauth2_scheme authorization db = (inr token, db)
       ∧ current_user token now db = (inl f, db))
  ∨ (∃ scheme token u,
       authorization = Some (scheme, token) ∧ lower scheme = "bearer"
       ∧ oauth2_scheme authorization db = (inr token, db)
       ∧ current_user token now db = (inr u, db)).
Proof.
  destruct (oauth2_scheme_run authorization db)
    as [(scheme & token & Hauth & Hbearer & Hrun)|[Hno Hrun]]; [|by left].
  right. destruct (current_user_cases token now db) as [[f Hcur]|[u Hcur]].
  - left. by exists scheme, token, f.
  - right. by exists scheme, token, u.
Qed.

(** X9. [POST /todos/] stores a Todo only for a bearer token that
    [get_current_user] accepts, and only for the caller: when it
    succeeds, the request carried a bearer header, exactly one Todo is
    appended, its id is above every stored id, its owner is the user
    the auth dependency resolved, and its title is the one of the
    payload; when it fails, the store is unchanged, and the failure is
    401 "Not authenticated" for a request without bearer header and the
    failure of [get_current_user] otherwise. *)
Theorem create_todo_endpoint_auth (authorization : option (string * Token))
    (todo_in : TodoCreate) (now : Z) (db : DB) :
  (∀ t db', post_todos authorization todo_in now db = (inr t, db') →
     ∃ scheme token u,
       authorization = Some (scheme, token) ∧ lower scheme = "bearer"
       ∧ result_of (current_user token now db) = inr u
       ∧ user_id t = user_id_of u
       ∧ title t = tc_title todo_in
       ∧ db' = mkDB (users db) (todos db ++ [t])
       ∧ Forall (λ t', todo_id t' < todo_id t) (todos db))
  ∧ (∀ f db', post_todos authorization todo_in now db = (inl f, db') →
       db' = db
       ∧ ((f = HTTPException 401 "Not authenticated"
           ∧ ∀ scheme token, authorization = Some (scheme, token) →
               lower scheme ≠ "bearer")
          ∨ ∃ scheme token,
              authorization = Some (scheme, token) ∧ lower scheme = "bearer"
              ∧ result_of (current_user token now db) = inl f)).
Proof.
  unfold create_todo_endpoint. cbv [mbind Handler_bind].
  destruct (auth_cases authorization now db)
    as [[Hno Hrun]|[(scheme & token & f & Hauth & Hbearer & Hrun & Hcur)
                   |(scheme & token & u & Hauth & Hbearer & Hrun & Hcur)]];
    rewrite Hrun; [|rewrite Hcur..].
  - split; [done|]. intros f db' [= <- <-]. split; [done|]. by left.
  - split; [done|]. intros f' db' [= <- <-]. split; [done|].
    right. exists scheme, token. by rewrite Hcur.
  - rewrite create_todo_run. cbn zeta. split; [|done].
    intros t db' [= <- <-]. exists scheme, token, u.
    rewrite Hcur. split_and!; try done.
    apply Forall_forall. intros t' Ht'. simpl.
    by apply next_id_above, list_elem_of_fmap_2.
Qed.

(** X10. [GET /todos/] answers only a bearer token that
    [get_current_user] accepts, and only with the caller's Todos: when
    it succeeds, the request carried a bearer header and every Todo of
    the page is a stored Todo owned by the user the auth dependency
    resolved; when it fails, the failure is 401 "Not authenticated" for
    a request without bearer header and the failure of
    [get_current_user] otherwise; the store is unchanged either way. *)
Theorem list_todos_endpoint_auth (authorization : option (string * Token))
    (skip limit : option Z) (now : Z) (db : DB) :
  (∀ page db', get_todos authorization skip limit now db = (inr page, db') →
     db' = db
     ∧ ∃ scheme token u,
         authorization = Some (scheme, token) ∧ lower scheme = "bearer"
         ∧ result_of (current_user token now db) = inr u
         ∧ ∀ t, t ∈ page → user_id t = user_id_of u ∧ t ∈ todos db)
  ∧ (∀ f db', get_todos authorization skip limit now db = (inl f, db') →
       db' = db
       ∧ ((f = HTTPException 401 "Not authenticated"
           ∧ ∀ scheme token, authorization = Some (scheme, token) →
               lower scheme ≠ "bearer")
          ∨ ∃ scheme token,
              authorization = Some (scheme, token) ∧ lower scheme = "bearer"
              ∧ result_of (current_user token now db) = inl f)).
Proof.
  unfold list_todos_endpoint. cbv [mbind Handler_bind].
  destruct (auth_cases authorization now db)
    as [[Hno Hrun]|[(scheme & token & f & Hauth & Hbearer & Hrun & Hcur)
                   |(scheme & token & u & Hauth & Hbearer & Hrun & Hcur)]];
    rewrite Hrun; [|rewrite Hcur..].
  - split; [done|]. intros f db' [= <- <-]. split; [done|]. by left.
  - split; [done|]. intros f' db' [= <- <-]. split; [done|].
    right. exists scheme, token. by rewrite Hcur.
  - unfold list_todos_params. rewrite list_todos_run. split; [|done].
    intros page db' [= <- <-]. split; [done|]. exists scheme, token, u.
    rewrite Hcur. split_and!; try done.
    apply query_todos_elem.
Qed.

(** X11. [POST /todos/] keeps the primary keys of the [todos] table in
    order: if they ascend along the table before the request, they
    ascend after it, whatever the header and the payload; so no two
    Todos share an id. *)
Theorem create_todo_endpoint_consistent (authorization : option (string * Token))
    (todo_in : TodoCreate) (now : Z) (db : DB) :
  todos_consistent db →
  todos_consistent (store_of (post_todos authorization todo_in now db))
  ∧ NoDup (todo_id <$> todos (store_of (post_todos authorization todo_in now db))).
Proof.
  intros Hsorted.
  assert (Hgoal : todos_consistent
                    (store_of (post_todos authorization todo_in now db))).
  { unfold create_todo_endpoint. cbv [mbind Handler_bind].
    destruct (auth_cases authorization now db)
      as [[Hno Hrun]|[(scheme & token & f & Hauth & Hbearer & Hrun & Hcur)
                     |(scheme & token & u & Hauth & Hbearer & Hrun & Hcur)]];
      rewrite Hrun; [|rewrite Hcur..]; [done..|].
    rewrite create_todo_run. unfold todos_consistent. simpl.
    rewrite fmap_snoc. apply StronglySorted_app_2; [|done|repeat constructor].
    intros i j Hi ->%list_elem_of_singleton. simpl.
    by apply next_id_above. }
  split; [exact Hgoal|].
  apply StronglySorted_lt_NoDup, Hgoal.
Qed.

End EndpointProperties.

(** ** The routes at the fixtures *)

Lemma get_current_user_sound_witness :
  token_claims Fixture.alice_token !! "sub" = Some (JStr "1")
  ∧ Fixture.lookup (JStr "1") Fixture.db_users = Some Fixture.alice.
Proof.
  destruct (get_current_user_sound Fixture.secret Fixture.algorithm Fixture.sign
              Fixture.int_of_str Fixture.lookup
              Fixture.alice_token 2100 Fixture.db_users Fixture.alice
              ltac:(by vm_compute))
    as (_ & (s & Hsub & Hlookup) & _).
  assert (Hs : s = "1").
  { cbn [token_claims Fixture.alice_token create_access_token jwt_encode] in Hsub.
    rewrite lookup_insert_ne, lookup_singleton_eq in Hsub by done.
    by injection Hsub. }
  subst s. split; [exact Hsub | exact Hlookup].
Defined.


Lemma create_access_token_round_trip_witness :
  jwt_decode Fixture.sign Fixture.int_of_str
    (create_access_token Fixture.secret Fixture.algorithm Fixture.sign
       {[ "sub" := JStr "1" ]} 900 2000)
    Fixture.secret [Fixture.algorithm] 2901
  = inl JWTError.
Proof.
  apply (create_access_token_round_trip Fixture.secret Fixture.algorithm
           Fixture.sign Fixture.int_of_str {[ "sub" := JStr "1" ]} 900 2000 2901).
  - unfold plain_claims. rewrite !lookup_singleton_ne by done.
    rewrite lookup_singleton_eq. split_and!; eauto.
  - lia.
Defined.

Lemma create_todo_endpoint_auth_witness :
  ∃ t db',
    create_todo_endpoint Fixture.secret Fixture.algorithm Fixture.sign
      Fixture.int_of_str Fixture.lookup
      (Some ("Bearer", Fixture.alice_token)) (mkTodoCreate "Buy milk") 2100
      Fixture.db_clock_set_back
    = (inr t, db')
    ∧ user_id t = 1
    ∧ db' = mkDB (users Fixture.db_clock_set_back)
                 (todos Fixture.db_clock_set_back ++ [t]).
Proof.
  eexists. eexists. split; [by vm_compute|].
  destruct (proj1 (create_todo_endpoint_auth Fixture.secret Fixture.algorithm
                     Fixture.sign Fixture.int_of_str Fixture.lookup
                     (Some ("Bearer", Fixture.alice_token))
                     (mkTodoCreate "Buy milk") 2100 Fixture.db_clock_set_back)
              _ _ ltac:(by vm_compute))
    as (scheme & token & u & _ & _ & _ & _ & _ & Hdb & _).
  split; [reflexivity | exact Hdb].
Defined.

Lemma list_todos_endpoint_auth_witness :
  ∃ page,
    list_todos_endpoint Fixture.secret Fixture.algorithm Fixture.sign
      Fixture.int_of_str Fixture.lookup
      (Some ("bearer", Fixture.alice_token)) None None 2100
      Fixture.db_clock_set_back
    = (inr page, Fixture.db_clock_set_back)
    ∧ ∀ t, t ∈ page → t ∈ todos Fixture.db_clock_set_back.
Proof.
  eexists. split; [by vm_compute|].
  destruct (proj1 (list_todos_endpoint_auth Fixture.secret Fixture.algorithm
                     Fixture.sign Fixture.int_of_str Fixture.lookup
                     (Some ("bearer", Fixture.alice_token)) None None 2100
                     Fixture.db_clock_set_back) _ _ ltac:(by vm_compute))
    as (_ & scheme & token & u & _ & _ & _ & Hpage).
  intros t Ht. by destruct (Hpage t Ht).
Defined.

Lemma create_todo_endpoint_consistent_witness :
  todos_consistent Fixture.db_clock_set_back
  ∧ NoDup (todo_id <$> todos (store_of
      (create_todo_endpoint Fixture.secret Fixture.algorithm Fixture.sign
         Fixture.int_of_str Fixture.lookup
         (Some ("Bearer", Fixture.alice_token)) (mkTodoCreate "Buy milk") 2100
         Fixture.db_clock_set_back))).
Proof.
  assert (Hok : todos_consistent Fixture.db_clock_set_back).
  { unfold todos_consistent. vm_compute. repeat constructor. }
  split; [exact Hok|].
  exact (proj2 (create_todo_endpoint_consistent Fixture.secret Fixture.algorithm
                  Fixture.sign Fixture.int_of_str Fixture.lookup
                  (Some ("Bearer", Fixture.alice_token))
                  (mkTodoCreate "Buy milk") 2100
                  Fixture.db_clock_set_back Hok)).
Defined.

(** * The API client of the frontend *)

Lemma string_length_app (s1 s2 : string) :
  String.length (s1 +:+ s2) = (String.length s1 + String.length s2)%nat.
Proof. induction s1 as [|c s1 IH]; simpl; [done | by rewrite IH]. Qed.

Lemma string_app_inj_r (s1 s2 t : string) : s1 +:+ t = s2 +:+ t → s1 = s2.
Proof.
  revert s2. induction s1 as [|c s1 IH]; intros [|c2 s2] Heq.
  - done.
  - apply (f_equal String.length) in Heq.
    rewrite !string_length_app in Heq. simpl in Heq. lia.
  - apply (f_equal String.length) in Heq.
    rewrite !string_length_app in Heq. simpl in Heq. lia.
  - change (String c (s1 +:+ t) = String c2 (s2 +:+ t)) in Heq.
    injection Heq as -> Heq. f_equal. by apply IH.
Qed.

(** X12. With a non-empty token in the local storage the interceptor
    sets the [Authorization] header to "Bearer " followed by the token,
    replacing any value the request had there, and leaves every other
    header and every other field of the request as it was; the token
    can be read back from the header. *)
Theorem request_interceptor_sets_bearer (localStorage : gmap string string)
    (config : Frontend.RequestConfig) (token : string) :
  localStorage !! "token" = Some token →
  token ≠ "" →
  let sent := Frontend.request_interceptor localStorage config in
  Frontend.headers sent !! "Authorization" = Some ("Bearer " +:+ token)
  ∧ (∀ k, k ≠ "Authorization" →
       Frontend.headers sent !! k = Frontend.headers config !! k)
  ∧ Frontend.baseURL sent = Frontend.baseURL config
  ∧ Frontend.url sent = Frontend.url config
  ∧ Frontend.method sent = Frontend.method config
  ∧ Frontend.data sent = Frontend.data config
  ∧ (∀ other, Frontend.headers sent !! "Authorization" = Some ("Bearer " +:+ other) →
       other = token).
Proof.
  intros Hstored Hne sent. subst sent. unfold Frontend.request_interceptor.
  rewrite Hstored. case_decide; [done|]. simpl. split_and!; try done.
  - apply lookup_insert_eq.
  - intros k Hk. by apply lookup_insert_ne.
  - intros other. rewrite lookup_insert_eq. intros [= Heq]. done.
Qed.

Lemma request_interceptor_sets_bearer_witness :
  Frontend.headers
    (Frontend.request_interceptor {[ "token" := "abc" ]} Frontend.sample_config)
  !! "Authorization" = Some "Bearer abc"
  ∧ Frontend.headers
      (Frontend.request_interceptor {[ "token" := "abc" ]} Frontend.sample_config)
    !! "Content-Type" = Some "application/json".
Proof.
  assert (Hstored : ({[ "token" := "abc" ]} : gmap string string) !! "token"
                    = Some "abc") by (vm_compute; reflexivity).
  assert (Hne : "abc" ≠ "") by discriminate.
  destruct (request_interceptor_sets_bearer _ Frontend.sample_config "abc"
              Hstored Hne) as (Hauth & Hframe & _).
  split; [exact Hauth|].
  rewrite Hframe by discriminate. reflexivity.
Defined.

(** X13. Without a usable token the interceptor sends the request as it
    is: when the local storage has no [token] entry, and also when the
    entry is the empty string, the request is returned unchanged, with
    no [Authorization] header added and none removed. *)
Theorem request_interceptor_without_token (localStorage : gmap string string)
    (config : Frontend.RequestConfig) :
  localStorage !! "token" = None ∨ localStorage !! "token" = Some "" →
  Frontend.request_interceptor localStorage config = config.
Proof.
  unfold Frontend.request_interceptor. intros [-> | ->]; [done|].
  by case_decide.
Qed.

Lemma request_interceptor_without_token_witness :
  Frontend.request_interceptor {[ "token" := "" ]} Frontend.sample_config
  = Frontend.sample_config
  ∧ Frontend.request_interceptor {[ "theme" := "dark" ]} Frontend.sample_config
    = Frontend.sample_config.
Proof.
  split.
  - apply request_interceptor_without_token. right. vm_compute. reflexivity.
  - apply request_interceptor_without_token. left. vm_compute. reflexivity.
Defined.

(** X14. The interceptor can run again on its own result without
    effect: a request that passes through it twice is the request that
    passed through it once. *)
Theorem request_interceptor_idempotent (localStorage : gmap string string)
    (config : Frontend.RequestConfig) :
  Frontend.request_interceptor localStorage
    (Frontend.request_interceptor localStorage config)
  = Frontend.request_interceptor localStorage config.
Proof.
  unfold Frontend.request_interceptor.
  destruct (localStorage !! "token") as [token|]; [|done].
  case_decide; [done|]. simpl. by rewrite insert_insert_eq.
Qed.

(** X15. Different users are asked for under different paths: the path
    [todosApi.getTodos] builds determines the user id it was built
    from. *)
Theorem getTodos_url_inj (userId1 userId2 : string) :
  Frontend.getTodos_url userId1 = Frontend.getTodos_url userId2 →
  userId1 = userId2.
Proof.
  unfold Frontend.getTodos_url. intros Heq.
  apply (inj (String.app "/users/")) in Heq.
  by apply string_app_inj_r in Heq.
Qed.

Lemma getTodos_url_inj_witness :
  Frontend.getTodos_url "7" = "/users/7/todos" ∧ "7" = "7".
Proof.
  split; [reflexivity|].
  apply getTodos_url_inj. reflexivity.
Defined.

(** * Pages of a table with distinct ids *)

(** X16. When the primary keys of the [todos] table are distinct, as
    the create route keeps them, no page shows a Todo twice, and two
    pages that do not overlap (the second starts at or after the end of
    the first) have no Todo in common. *)
Theorem listing_pages_disjoint (db : DB) (u : User) (skip n skip2 limit2 : Z) :
  NoDup (todo_id <$> todos db) →
  0 ≤ skip → 0 ≤ n → skip + n ≤ skip2 →
  NoDup (listing u skip n db)
  ∧ NoDup (listing u skip2 limit2 db)
  ∧ ∀ t, t ∈ listing u skip n db → t ∉ listing u skip2 limit2 db.
Proof.
  intros Hids Hskip Hn Hnext.
  assert (Hrows : NoDup (filter (λ t, user_id t = user_id_of u) (todos db))).
  { apply NoDup_filter. by apply NoDup_fmap_1 in Hids. }
  assert (Hpage : ∀ s l, NoDup (listing u s l db)).
  { intros s l. eapply sublist_NoDup; [exact Hrows|]. rewrite listing_eq.
    etrans; [apply sql_limit_sublist | apply sql_offset_sublist]. }
  split_and!; [apply Hpage..|].
  rewrite !listing_eq. set (owned := filter _ (todos db)) in *.
  unfold sql_offset. intros t Hfirst Hsecond.
  eapply elem_of_sublist in Hsecond; [|apply sql_limit_sublist].
  unfold sql_limit in Hfirst. destruct (Z.ltb_spec n 0); [lia|].
  replace (Z.to_nat skip2)
    with (Z.to_nat skip + (Z.to_nat n + (Z.to_nat skip2 - Z.to_nat skip - Z.to_nat n)))%nat
    in Hsecond by lia.
  rewrite <- !drop_drop in Hsecond.
  eapply elem_of_sublist in Hsecond; [|apply sublist_drop].
  assert (Hwindow : NoDup (drop (Z.to_nat skip) owned)).
  { eapply sublist_NoDup; [exact Hrows | apply sublist_drop]. }
  rewrite <- (take_drop (Z.to_nat n) (drop (Z.to_nat skip) owned)) in Hwindow.
  apply NoDup_app in Hwindow as (_ & Hdisjoint & _).
  by apply (Hdisjoint t).
Qed.

Lemma listing_pages_disjoint_witness :
  NoDup (listing Fixture.alice 0 1 Fixture.db_clock_set_back)
  ∧ NoDup (listing Fixture.alice 1 1 Fixture.db_clock_set_back).
Proof.
  assert (Hids : NoDup (todo_id <$> todos Fixture.db_clock_set_back)).
  { vm_compute. repeat constructor; intros Hin.
    - repeat (apply elem_of_cons in Hin as [Hin|Hin]; [discriminate Hin|]).
      by apply elem_of_nil in Hin.
    - by apply elem_of_nil in Hin. }
  destruct (listing_pages_disjoint Fixture.db_clock_set_back Fixture.alice
              0 1 1 1 Hids) as (Hfirst & Hsecond & _); [lia..|].
  split; [exact Hfirst | exact Hsecond].
Defined.
